(** * Encryption-Decryption-App: the transform core, embedded and verified

    The development follows the Python sources:
    - [src/ciphers/caesar.py]        (module [Caesar])
    - [src/ciphers/base64_mod.py]    (module [Base64Mod], over [Pybase64])
    - [src/utils/crypto_helpers.py]  (module [CryptoHelpers])

    Python values are modelled as follows.  A [str] is the list of its
    Unicode code points, a [bytes] object the list of its octets, both over
    [Z].  A call that can raise returns a [result]: either [Ok v] or
    [Raise e] where [e] records the exception class, its message and its
    [__cause__].  Python's [%] on integers is the floored modulo and, for a
    positive modulus, coincides with [Z.modulo]. *)

From Stdlib Require Import ZArith List Lia Bool String Ascii.
Import ListNotations.
Local Open Scope Z_scope.

(** ** The Python runtime, as far as the program uses it *)
Module Py.

(** Exception classes met in the program, with their base class. *)
Inductive exc_class : Type :=
| BaseException
| KeyboardInterrupt
| Exception
| LookupError
| IndexError
| ValueError
| BinasciiError
| UnicodeError
| UnicodeEncodeError
| UnicodeDecodeError.

Definition exc_class_eqb (a b : exc_class) : bool :=
  match a, b with
  | BaseException, BaseException | KeyboardInterrupt, KeyboardInterrupt
  | Exception, Exception | LookupError, LookupError
  | IndexError, IndexError | ValueError, ValueError
  | BinasciiError, BinasciiError | UnicodeError, UnicodeError
  | UnicodeEncodeError, UnicodeEncodeError
  | UnicodeDecodeError, UnicodeDecodeError => true
  | _, _ => false
  end.

Definition exc_base (c : exc_class) : option exc_class :=
  match c with
  | BaseException => None
  | KeyboardInterrupt => Some BaseException
  | Exception => Some BaseException
  | LookupError => Some Exception
  | IndexError => Some LookupError
  | ValueError => Some Exception
  | BinasciiError => Some ValueError
  | UnicodeError => Some ValueError
  | UnicodeEncodeError => Some UnicodeError
  | UnicodeDecodeError => Some UnicodeError
  end.

Fixpoint issubclass_upto (depth : nat) (c d : exc_class) : bool :=
  exc_class_eqb c d ||
  match depth with
  | O => false
  | S k => match exc_base c with
           | Some p => issubclass_upto k p d
           | None => false
           end
  end.

(** [issubclass c d]; the hierarchy above is four levels deep. *)
Definition issubclass (c d : exc_class) : bool := issubclass_upto 4 c d.

(** An exception instance: class, message, and [__cause__]. *)
Inductive exn : Type :=
| Exn (cls : exc_class) (msg : string)
| ExnFrom (cls : exc_class) (msg : string) (cause : exn).

Definition exn_class (e : exn) : exc_class :=
  match e with Exn c _ | ExnFrom c _ _ => c end.
Definition exn_msg (e : exn) : string :=
  match e with Exn _ m | ExnFrom _ m _ => m end.
Definition exn_cause (e : exn) : option exn :=
  match e with Exn _ _ => None | ExnFrom _ _ c => Some c end.

Inductive result (A : Type) : Type :=
| Ok (a : A)
| Raise (e : exn).
Arguments Ok {A} a.
Arguments Raise {A} e.

Definition bind {A B} (r : result A) (k : A -> result B) : result B :=
  match r with
  | Ok a => k a
  | Raise e => Raise e
  end.

Definition raise {A} (c : exc_class) (m : string) : result A :=
  Raise (Exn c m).

(** [try: body  except cls as exc: handler exc] *)
Definition try_except {A} (body : result A) (cls : exc_class)
    (handler : exn -> result A) : result A :=
  match body with
  | Ok a => Ok a
  | Raise e => if issubclass (exn_class e) cls then handler e else Raise e
  end.

(** [raise cls(msg) from exc] *)
Definition raise_from {A} (c : exc_class) (m : string) (exc : exn) : result A :=
  Raise (ExnFrom c m exc).

Definition is_ok {A} (r : result A) : bool :=
  match r with Ok _ => true | Raise _ => false end.

Definition str := list Z.
Definition bytes := list Z.

(** A [str] literal made of ASCII characters. *)
Definition lit (s : string) : str :=
  map (fun a => Z.of_N (N_of_ascii a)) (list_ascii_of_string s).

(** [[f(ch) for ch in s]], joined; the first exception raised by [f]
    propagates and ends the iteration. *)
Fixpoint join_map (f : Z -> result Z) (s : str) : result str :=
  match s with
  | [] => Ok []
  | ch :: rest =>
      bind (f ch) (fun y =>
      bind (join_map f rest) (fun ys => Ok (y :: ys)))
  end.

Fixpoint startswith (s prefix : str) : bool :=
  match prefix, s with
  | [], _ => true
  | _ :: _, [] => false
  | p :: prefix', c :: s' => (p =? c) && startswith s' prefix'
  end.

(** [hay.find(needle)], [None] standing for [-1]. *)
Fixpoint str_find (hay needle : str) : option Z :=
  if startswith hay needle then Some 0
  else match hay with
       | [] => None
       | _ :: hay' => option_map Z.succ (str_find hay' needle)
       end.

(** [needle in hay] *)
Definition str_contains (hay needle : str) : bool :=
  match str_find hay needle with Some _ => true | None => false end.

(** [hay.index(needle)] *)
Definition str_index (hay needle : str) : result Z :=
  match str_find hay needle with
  | Some i => Ok i
  | None => raise ValueError "substring not found"
  end.

(** [s[i]] for an integer [i]; negative indices count from the end. *)
Definition str_getitem (s : str) (i : Z) : result Z :=
  let n := Z.of_nat (List.length s) in
  let j := if i <? 0 then i + n else i in
  if (0 <=? j) && (j <? n) then
    match nth_error s (Z.to_nat j) with
    | Some c => Ok c
    | None => raise IndexError "string index out of range"
    end
  else raise IndexError "string index out of range".

(** *** Case mapping

    [ch.lower()] and [ch.islower()] for a one-character [str], from the
    Unicode Character Database 14.0.0 (the one CPython 3.11 ships).  An
    entry [(lo, hi, stride, delta)] of [lower_table] says that every code
    point [lo + k * stride <= hi] lower-cases to itself plus [delta]; an
    entry [(lo, hi, stride)] of [islower_table] lists the code points for
    which [islower] holds.  U+0130 is the one code point whose lower case
    is longer than one character. *)
Definition lower_table : list (Z * Z * Z * Z) :=
  [
  (0x41, 0x5A, 1, 32); (0xC0, 0xD6, 1, 32); (0xD8, 0xDE, 1, 32);
  (0x100, 0x12E, 2, 1); (0x132, 0x136, 2, 1); (0x139, 0x147, 2, 1);
  (0x14A, 0x176, 2, 1); (0x178, 0x178, 1, (-121)); (0x179, 0x17D, 2, 1);
  (0x181, 0x181, 1, 210); (0x182, 0x184, 2, 1); (0x186, 0x186, 1, 206);
  (0x187, 0x187, 1, 1); (0x189, 0x18A, 1, 205); (0x18B, 0x18B, 1, 1);
  (0x18E, 0x18E, 1, 79); (0x18F, 0x18F, 1, 202); (0x190, 0x190, 1, 203);
  (0x191, 0x191, 1, 1); (0x193, 0x193, 1, 205); (0x194, 0x194, 1, 207);
  (0x196, 0x196, 1, 211); (0x197, 0x197, 1, 209); (0x198, 0x198, 1, 1);
  (0x19C, 0x19C, 1, 211); (0x19D, 0x19D, 1, 213); (0x19F, 0x19F, 1, 214);
  (0x1A0, 0x1A4, 2, 1); (0x1A6, 0x1A6, 1, 218); (0x1A7, 0x1A7, 1, 1);
  (0x1A9, 0x1A9, 1, 218); (0x1AC, 0x1AC, 1, 1); (0x1AE, 0x1AE, 1, 218);
  (0x1AF, 0x1AF, 1, 1); (0x1B1, 0x1B2, 1, 217); (0x1B3, 0x1B5, 2, 1);
  (0x1B7, 0x1B7, 1, 219); (0x1B8, 0x1B8, 1, 1); (0x1BC, 0x1BC, 1, 1);
  (0x1C4, 0x1C4, 1, 2); (0x1C5, 0x1C5, 1, 1); (0x1C7, 0x1C7, 1, 2);
  (0x1C8, 0x1C8, 1, 1); (0x1CA, 0x1CA, 1, 2); (0x1CB, 0x1DB, 2, 1);
  (0x1DE, 0x1EE, 2, 1); (0x1F1, 0x1F1, 1, 2); (0x1F2, 0x1F4, 2, 1);
  (0x1F6, 0x1F6, 1, (-97)); (0x1F7, 0x1F7, 1, (-56)); (0x1F8, 0x21E, 2, 1);
  (0x220, 0x220, 1, (-130)); (0x222, 0x232, 2, 1); (0x23A, 0x23A, 1, 10795);
  (0x23B, 0x23B, 1, 1); (0x23D, 0x23D, 1, (-163)); (0x23E, 0x23E, 1, 10792);
  (0x241, 0x241, 1, 1); (0x243, 0x243, 1, (-195)); (0x244, 0x244, 1, 69);
  (0x245, 0x245, 1, 71); (0x246, 0x24E, 2, 1); (0x370, 0x372, 2, 1);
  (0x376, 0x376, 1, 1); (0x37F, 0x37F, 1, 116); (0x386, 0x386, 1, 38);
  (0x388, 0x38A, 1, 37); (0x38C, 0x38C, 1, 64); (0x38E, 0x38F, 1, 63);
  (0x391, 0x3A1, 1, 32); (0x3A3, 0x3AB, 1, 32); (0x3CF, 0x3CF, 1, 8);
  (0x3D8, 0x3EE, 2, 1); (0x3F4, 0x3F4, 1, (-60)); (0x3F7, 0x3F7, 1, 1);
  (0x3F9, 0x3F9, 1, (-7)); (0x3FA, 0x3FA, 1, 1); (0x3FD, 0x3FF, 1, (-130));
  (0x400, 0x40F, 1, 80); (0x410, 0x42F, 1, 32); (0x460, 0x480, 2, 1);
  (0x48A, 0x4BE, 2, 1); (0x4C0, 0x4C0, 1, 15); (0x4C1, 0x4CD, 2, 1);
  (0x4D0, 0x52E, 2, 1); (0x531, 0x556, 1, 48); (0x10A0, 0x10C5, 1, 7264);
  (0x10C7, 0x10C7, 1, 7264); (0x10CD, 0x10CD, 1, 7264); (0x13A0, 0x13EF, 1, 38864);
  (0x13F0, 0x13F5, 1, 8); (0x1C90, 0x1CBA, 1, (-3008)); (0x1CBD, 0x1CBF, 1, (-3008));
  (0x1E00, 0x1E94, 2, 1); (0x1E9E, 0x1E9E, 1, (-7615)); (0x1EA0, 0x1EFE, 2, 1);
  (0x1F08, 0x1F0F, 1, (-8)); (0x1F18, 0x1F1D, 1, (-8)); (0x1F28, 0x1F2F, 1, (-8));
  (0x1F38, 0x1F3F, 1, (-8)); (0x1F48, 0x1F4D, 1, (-8)); (0x1F59, 0x1F5F, 2, (-8));
  (0x1F68, 0x1F6F, 1, (-8)); (0x1F88, 0x1F8F, 1, (-8)); (0x1F98, 0x1F9F, 1, (-8));
  (0x1FA8, 0x1FAF, 1, (-8)); (0x1FB8, 0x1FB9, 1, (-8)); (0x1FBA, 0x1FBB, 1, (-74));
  (0x1FBC, 0x1FBC, 1, (-9)); (0x1FC8, 0x1FCB, 1, (-86)); (0x1FCC, 0x1FCC, 1, (-9));
  (0x1FD8, 0x1FD9, 1, (-8)); (0x1FDA, 0x1FDB, 1, (-100)); (0x1FE8, 0x1FE9, 1, (-8));
  (0x1FEA, 0x1FEB, 1, (-112)); (0x1FEC, 0x1FEC, 1, (-7)); (0x1FF8, 0x1FF9, 1, (-128));
  (0x1FFA, 0x1FFB, 1, (-126)); (0x1FFC, 0x1FFC, 1, (-9)); (0x2126, 0x2126, 1, (-7517));
  (0x212A, 0x212A, 1, (-8383)); (0x212B, 0x212B, 1, (-8262)); (0x2132, 0x2132, 1, 28);
  (0x2160, 0x216F, 1, 16); (0x2183, 0x2183, 1, 1); (0x24B6, 0x24CF, 1, 26);
  (0x2C00, 0x2C2F, 1, 48); (0x2C60, 0x2C60, 1, 1); (0x2C62, 0x2C62, 1, (-10743));
  (0x2C63, 0x2C63, 1, (-3814)); (0x2C64, 0x2C64, 1, (-10727)); (0x2C67, 0x2C6B, 2, 1);
  (0x2C6D, 0x2C6D, 1, (-10780)); (0x2C6E, 0x2C6E, 1, (-10749)); (0x2C6F, 0x2C6F, 1, (-10783));
  (0x2C70, 0x2C70, 1, (-10782)); (0x2C72, 0x2C72, 1, 1); (0x2C75, 0x2C75, 1, 1);
  (0x2C7E, 0x2C7F, 1, (-10815)); (0x2C80, 0x2CE2, 2, 1); (0x2CEB, 0x2CED, 2, 1);
  (0x2CF2, 0x2CF2, 1, 1); (0xA640, 0xA66C, 2, 1); (0xA680, 0xA69A, 2, 1);
  (0xA722, 0xA72E, 2, 1); (0xA732, 0xA76E, 2, 1); (0xA779, 0xA77B, 2, 1);
  (0xA77D, 0xA77D, 1, (-35332)); (0xA77E, 0xA786, 2, 1); (0xA78B, 0xA78B, 1, 1);
  (0xA78D, 0xA78D, 1, (-42280)); (0xA790, 0xA792, 2, 1); (0xA796, 0xA7A8, 2, 1);
  (0xA7AA, 0xA7AA, 1, (-42308)); (0xA7AB, 0xA7AB, 1, (-42319)); (0xA7AC, 0xA7AC, 1, (-42315));
  (0xA7AD, 0xA7AD, 1, (-42305)); (0xA7AE, 0xA7AE, 1, (-42308)); (0xA7B0, 0xA7B0, 1, (-42258));
  (0xA7B1, 0xA7B1, 1, (-42282)); (0xA7B2, 0xA7B2, 1, (-42261)); (0xA7B3, 0xA7B3, 1, 928);
  (0xA7B4, 0xA7C2, 2, 1); (0xA7C4, 0xA7C4, 1, (-48)); (0xA7C5, 0xA7C5, 1, (-42307));
  (0xA7C6, 0xA7C6, 1, (-35384)); (0xA7C7, 0xA7C9, 2, 1); (0xA7D0, 0xA7D0, 1, 1);
  (0xA7D6, 0xA7D8, 2, 1); (0xA7F5, 0xA7F5, 1, 1); (0xFF21, 0xFF3A, 1, 32);
  (0x10400, 0x10427, 1, 40); (0x104B0, 0x104D3, 1, 40); (0x10570, 0x1057A, 1, 39);
  (0x1057C, 0x1058A, 1, 39); (0x1058C, 0x10592, 1, 39); (0x10594, 0x10595, 1, 39);
  (0x10C80, 0x10CB2, 1, 64); (0x118A0, 0x118BF, 1, 32); (0x16E40, 0x16E5F, 1, 32);
  (0x1E900, 0x1E921, 1, 34)
  ].

Definition islower_table : list (Z * Z * Z) :=
  [
  (0x61, 0x7A, 1); (0xAA, 0xAA, 1); (0xB5, 0xB5, 1); (0xBA, 0xBA, 1);
  (0xDF, 0xF6, 1); (0xF8, 0xFF, 1); (0x101, 0x137, 2); (0x138, 0x148, 2);
  (0x149, 0x177, 2); (0x17A, 0x17E, 2); (0x17F, 0x180, 1); (0x183, 0x185, 2);
  (0x188, 0x188, 1); (0x18C, 0x18D, 1); (0x192, 0x192, 1); (0x195, 0x195, 1);
  (0x199, 0x19B, 1); (0x19E, 0x19E, 1); (0x1A1, 0x1A5, 2); (0x1A8, 0x1AA, 2);
  (0x1AB, 0x1AD, 2); (0x1B0, 0x1B0, 1); (0x1B4, 0x1B6, 2); (0x1B9, 0x1BA, 1);
  (0x1BD, 0x1BF, 1); (0x1C6, 0x1C6, 1); (0x1C9, 0x1C9, 1); (0x1CC, 0x1DC, 2);
  (0x1DD, 0x1EF, 2); (0x1F0, 0x1F0, 1); (0x1F3, 0x1F5, 2); (0x1F9, 0x233, 2);
  (0x234, 0x239, 1); (0x23C, 0x23C, 1); (0x23F, 0x240, 1); (0x242, 0x242, 1);
  (0x247, 0x24F, 2); (0x250, 0x293, 1); (0x295, 0x2B8, 1); (0x2C0, 0x2C1, 1);
  (0x2E0, 0x2E4, 1); (0x345, 0x345, 1); (0x371, 0x373, 2); (0x377, 0x377, 1);
  (0x37A, 0x37D, 1); (0x390, 0x390, 1); (0x3AC, 0x3CE, 1); (0x3D0, 0x3D1, 1);
  (0x3D5, 0x3D7, 1); (0x3D9, 0x3EF, 2); (0x3F0, 0x3F3, 1); (0x3F5, 0x3F5, 1);
  (0x3F8, 0x3F8, 1); (0x3FB, 0x3FC, 1); (0x430, 0x45F, 1); (0x461, 0x481, 2);
  (0x48B, 0x4BF, 2); (0x4C2, 0x4CE, 2); (0x4CF, 0x52F, 2); (0x560, 0x588, 1);
  (0x10D0, 0x10FA, 1); (0x10FD, 0x10FF, 1); (0x13F8, 0x13FD, 1); (0x1C80, 0x1C88, 1);
  (0x1D00, 0x1DBF, 1); (0x1E01, 0x1E95, 2); (0x1E96, 0x1E9D, 1); (0x1E9F, 0x1EFF, 2);
  (0x1F00, 0x1F07, 1); (0x1F10, 0x1F15, 1); (0x1F20, 0x1F27, 1); (0x1F30, 0x1F37, 1);
  (0x1F40, 0x1F45, 1); (0x1F50, 0x1F57, 1); (0x1F60, 0x1F67, 1); (0x1F70, 0x1F7D, 1);
  (0x1F80, 0x1F87, 1); (0x1F90, 0x1F97, 1); (0x1FA0, 0x1FA7, 1); (0x1FB0, 0x1FB4, 1);
  (0x1FB6, 0x1FB7, 1); (0x1FBE, 0x1FBE, 1); (0x1FC2, 0x1FC4, 1); (0x1FC6, 0x1FC7, 1);
  (0x1FD0, 0x1FD3, 1); (0x1FD6, 0x1FD7, 1); (0x1FE0, 0x1FE7, 1); (0x1FF2, 0x1FF4, 1);
  (0x1FF6, 0x1FF7, 1); (0x2071, 0x2071, 1); (0x207F, 0x207F, 1); (0x2090, 0x209C, 1);
  (0x210A, 0x210A, 1); (0x210E, 0x210F, 1); (0x2113, 0x2113, 1); (0x212F, 0x212F, 1);
  (0x2134, 0x2134, 1); (0x2139, 0x2139, 1); (0x213C, 0x213D, 1); (0x2146, 0x2149, 1);
  (0x214E, 0x214E, 1); (0x2170, 0x217F, 1); (0x2184, 0x2184, 1); (0x24D0, 0x24E9, 1);
  (0x2C30, 0x2C5F, 1); (0x2C61, 0x2C61, 1); (0x2C65, 0x2C66, 1); (0x2C68, 0x2C6C, 2);
  (0x2C71, 0x2C73, 2); (0x2C74, 0x2C76, 2); (0x2C77, 0x2C7D, 1); (0x2C81, 0x2CE3, 2);
  (0x2CE4, 0x2CE4, 1); (0x2CEC, 0x2CEE, 2); (0x2CF3, 0x2CF3, 1); (0x2D00, 0x2D25, 1);
  (0x2D27, 0x2D27, 1); (0x2D2D, 0x2D2D, 1); (0xA641, 0xA66D, 2); (0xA681, 0xA69B, 2);
  (0xA69C, 0xA69D, 1); (0xA723, 0xA72F, 2); (0xA730, 0xA731, 1); (0xA733, 0xA76F, 2);
  (0xA770, 0xA778, 1); (0xA77A, 0xA77C, 2); (0xA77F, 0xA787, 2); (0xA78C, 0xA78E, 2);
  (0xA791, 0xA793, 2); (0xA794, 0xA795, 1); (0xA797, 0xA7A9, 2); (0xA7AF, 0xA7AF, 1);
  (0xA7B5, 0xA7C3, 2); (0xA7C8, 0xA7CA, 2); (0xA7D1, 0xA7D9, 2); (0xA7F6, 0xA7F8, 2);
  (0xA7F9, 0xA7FA, 1); (0xAB30, 0xAB5A, 1); (0xAB5C, 0xAB68, 1); (0xAB70, 0xABBF, 1);
  (0xFB00, 0xFB06, 1); (0xFB13, 0xFB17, 1); (0xFF41, 0xFF5A, 1); (0x10428, 0x1044F, 1);
  (0x104D8, 0x104FB, 1); (0x10597, 0x105A1, 1); (0x105A3, 0x105B1, 1); (0x105B3, 0x105B9, 1);
  (0x105BB, 0x105BC, 1); (0x10780, 0x10780, 1); (0x10783, 0x10785, 1); (0x10787, 0x107B0, 1);
  (0x107B2, 0x107BA, 1); (0x10CC0, 0x10CF2, 1); (0x118C0, 0x118DF, 1); (0x16E60, 0x16E7F, 1);
  (0x1D41A, 0x1D433, 1); (0x1D44E, 0x1D454, 1); (0x1D456, 0x1D467, 1); (0x1D482, 0x1D49B, 1);
  (0x1D4B6, 0x1D4B9, 1); (0x1D4BB, 0x1D4BD, 2); (0x1D4BE, 0x1D4C3, 1); (0x1D4C5, 0x1D4CF, 1);
  (0x1D4EA, 0x1D503, 1); (0x1D51E, 0x1D537, 1); (0x1D552, 0x1D56B, 1); (0x1D586, 0x1D59F, 1);
  (0x1D5BA, 0x1D5D3, 1); (0x1D5EE, 0x1D607, 1); (0x1D622, 0x1D63B, 1); (0x1D656, 0x1D66F, 1);
  (0x1D68A, 0x1D6A5, 1); (0x1D6C2, 0x1D6DA, 1); (0x1D6DC, 0x1D6E1, 1); (0x1D6FC, 0x1D714, 1);
  (0x1D716, 0x1D71B, 1); (0x1D736, 0x1D74E, 1); (0x1D750, 0x1D755, 1); (0x1D770, 0x1D788, 1);
  (0x1D78A, 0x1D78F, 1); (0x1D7AA, 0x1D7C2, 1); (0x1D7C4, 0x1D7C9, 1); (0x1D7CB, 0x1D7CB, 1);
  (0x1DF00, 0x1DF09, 1); (0x1DF0B, 0x1DF1E, 1); (0x1E922, 0x1E943, 1)
  ].

Fixpoint lookup_lower (t : list (Z * Z * Z * Z)) (c : Z) : option Z :=
  match t with
  | [] => None
  | (lo, hi, stride, delta) :: t' =>
      if (lo <=? c) && (c <=? hi) && ((c - lo) mod stride =? 0)
      then Some (c + delta)
      else lookup_lower t' c
  end.

Fixpoint lookup_islower (t : list (Z * Z * Z)) (c : Z) : bool :=
  match t with
  | [] => false
  | (lo, hi, stride) :: t' =>
      ((lo <=? c) && (c <=? hi) && ((c - lo) mod stride =? 0))
      || lookup_islower t' c
  end.

(** [chr(c).lower()] *)
Definition chr_lower (c : Z) : str :=
  if c =? 0x130 then [0x69; 0x307]
  else match lookup_lower lower_table c with
       | Some l => [l]
       | None => [c]
       end.

(** [chr(c).islower()] *)
Definition chr_islower (c : Z) : bool := lookup_islower islower_table c.

(** *** UTF-8

    [s.encode("utf-8")] and [b.decode("utf-8")] with the default (strict)
    error handler.  Shifts and masks are written as divisions and
    remainders by powers of two. *)
Definition is_surrogate (c : Z) : bool := (0xD800 <=? c) && (c <=? 0xDFFF).

Definition utf8_encode_char (c : Z) : result bytes :=
  if c <? 0x80 then Ok [c]
  else if c <? 0x800 then Ok [0xC0 + c / 64; 0x80 + c mod 64]
  else if c <? 0x10000 then
    if is_surrogate c
    then raise UnicodeEncodeError "surrogates not allowed"
    else Ok [0xE0 + c / 4096; 0x80 + (c / 64) mod 64; 0x80 + c mod 64]
  else Ok [0xF0 + c / 262144; 0x80 + (c / 4096) mod 64;
           0x80 + (c / 64) mod 64; 0x80 + c mod 64].

Fixpoint utf8_encode (s : str) : result bytes :=
  match s with
  | [] => Ok []
  | c :: rest =>
      bind (utf8_encode_char c) (fun bs =>
      bind (utf8_encode rest) (fun out => Ok (bs ++ out)))
  end.

Definition in_range (lo hi b : Z) : bool := (lo <=? b) && (b <=? hi).
Definition is_cont (b : Z) : bool := in_range 0x80 0xBF b.

(** Bounds of the second byte, which depend on the lead byte: they
    exclude overlong forms, surrogates and values above U+10FFFF. *)
Definition second_lo (b0 : Z) : Z :=
  if b0 =? 0xE0 then 0xA0 else if b0 =? 0xF0 then 0x90 else 0x80.
Definition second_hi (b0 : Z) : Z :=
  if b0 =? 0xED then 0x9F else if b0 =? 0xF4 then 0x8F else 0xBF.

Definition bad_start {A} : result A :=
  raise UnicodeDecodeError "invalid start byte".
Definition bad_cont {A} : result A :=
  raise UnicodeDecodeError "invalid continuation byte".
Definition truncated {A} : result A :=
  raise UnicodeDecodeError "unexpected end of data".

Fixpoint utf8_decode (b : bytes) : result str :=
  match b with
  | [] => Ok []
  | b0 :: r0 =>
      if b0 <? 0x80 then
        bind (utf8_decode r0) (fun cs => Ok (b0 :: cs))
      else if b0 <? 0xC2 then bad_start
      else if b0 <? 0xE0 then
        match r0 with
        | [] => truncated
        | b1 :: r1 =>
            if is_cont b1 then
              bind (utf8_decode r1) (fun cs =>
                Ok ((b0 - 0xC0) * 64 + (b1 - 0x80) :: cs))
            else bad_cont
        end
      else if b0 <? 0xF0 then
        match r0 with
        | [] => truncated
        | b1 :: r1 =>
            if in_range (second_lo b0) (second_hi b0) b1 then
              match r1 with
              | [] => truncated
              | b2 :: r2 =>
                  if is_cont b2 then
                    bind (utf8_decode r2) (fun cs =>
                      Ok ((b0 - 0xE0) * 4096 + (b1 - 0x80) * 64
                          + (b2 - 0x80) :: cs))
                  else bad_cont
              end
            else bad_cont
        end
      else if b0 <? 0xF5 then
        match r0 with
        | [] => truncated
        | b1 :: r1 =>
            if in_range (second_lo b0) (second_hi b0) b1 then
              match r1 with
              | [] => truncated
              | b2 :: r2 =>
                  if is_cont b2 then
                    match r2 with
                    | [] => truncated
                    | b3 :: r3 =>
                        if is_cont b3 then
                          bind (utf8_decode r3) (fun cs =>
                            Ok ((b0 - 0xF0) * 262144 + (b1 - 0x80) * 4096
                                + (b2 - 0x80) * 64 + (b3 - 0x80) :: cs))
                        else bad_cont
                    end
                  else bad_cont
              end
            else bad_cont
        end
      else bad_start
  end.

(** *** Sequences of integers *)

(** [bytes(l)] for a list of integers *)
Definition bytes_of_list (l : list Z) : result bytes :=
  if forallb (in_range 0 255) l then Ok l
  else raise ValueError "bytes must be in range(0, 256)".

(** [[x] * n] *)
Definition list_repeat (x n : Z) : list Z := repeat x (Z.to_nat n).

(** A slice bound [i] over a sequence of length [n], clamped as Python
    does. *)
Definition slice_bound (n i : Z) : nat :=
  Z.to_nat (if i <? 0 then Z.max (i + n) 0 else Z.min i n).

(** [s[i:]] and [s[:j]] *)
Definition slice_from (s : list Z) (i : Z) : list Z :=
  skipn (slice_bound (Z.of_nat (List.length s)) i) s.
Definition slice_to (s : list Z) (j : Z) : list Z :=
  firstn (slice_bound (Z.of_nat (List.length s)) j) s.

Fixpoint bytes_eqb (a b : bytes) : bool :=
  match a, b with
  | [], [] => true
  | x :: a', y :: b' => (x =? y) && bytes_eqb a' b'
  | _, _ => false
  end.

End Py.

Import Py.
Notation "x <- e ;; k" := (bind e (fun x => k))
  (at level 61, e at next level, right associativity).

(** ** [src/ciphers/caesar.py] *)
Module Caesar.

(** [ALPHABET = string.ascii_lowercase] *)
Definition ALPHABET : str := lit "abcdefghijklmnopqrstuvwxyz".

(** [ALPHABET.upper()]: on the ASCII lower-case letters [str.upper]
    subtracts 32 from the code point. *)
Definition ALPHABET_upper : str := map (fun c => c - 32) ALPHABET.

Definition _shift_char (ch : Z) (shift : Z) : result Z :=
  if negb (str_contains ALPHABET (chr_lower ch)) then Ok ch
  else
    let base := if chr_islower ch then ALPHABET else ALPHABET_upper in
    idx <- str_index base [ch] ;;
    let shifted := (idx + shift) mod 26 in
    str_getitem base shifted.

Definition encrypt_caesar (plaintext : str) (shift : Z) : result str :=
  let norm_shift := shift mod 26 in
  join_map (fun ch => _shift_char ch norm_shift) plaintext.

Definition decrypt_caesar (ciphertext : str) (shift : Z) : result str :=
  let norm_shift := shift mod 26 in
  join_map (fun ch => _shift_char ch (- norm_shift)) ciphertext.

End Caesar.
Import Caesar.


(** ** [pybase64], the third-party codec [base64_mod.py] calls

    [pybase64.b64encode(s)] is the RFC 4648 encoder.
    [pybase64.b64decode(s)] is called with its default [validate=False]:
    as the library documents, and as the standard library's
    [binascii.a2b_base64] which it mirrors does, characters outside the
    alphabet are discarded before the padding check, and decoding stops at
    the end of a completed pad sequence.  The messages of the exceptions
    are shortened to their fixed part. *)
Module Pybase64.

Definition b64_alphabet : str :=
  lit "ABCDEFGHIJKLMNOPQRSTUVWXYZabcdefghijklmnopqrstuvwxyz0123456789+/".

Definition PAD : Z := 61.

(** The symbol of a six-bit value, and the value of a symbol. *)
Definition b2a (v : Z) : Z := nth (Z.to_nat v) b64_alphabet 0.
Definition a2b (c : Z) : option Z := str_find b64_alphabet [c].

Fixpoint b64encode (s : bytes) : bytes :=
  match s with
  | [] => []
  | [x] => [b2a (x / 4); b2a (x mod 4 * 16); PAD; PAD]
  | [x; y] =>
      [b2a (x / 4); b2a (x mod 4 * 16 + y / 16); b2a (y mod 16 * 4); PAD]
  | x :: y :: z :: rest =>
      b2a (x / 4) :: b2a (x mod 4 * 16 + y / 16)
      :: b2a (y mod 16 * 4 + z / 64) :: b2a (z mod 64) :: b64encode rest
  end.

(** The decoding loop.  [quad_pos] is the position inside the current
    group of four symbols, [leftchar] the bits not yet written out and
    [pads] the number of [=] seen in a row. *)
Fixpoint a2b_base64 (data : bytes) (quad_pos leftchar pads : Z)
    : result bytes :=
  match data with
  | [] =>
      if quad_pos =? 0 then Ok []
      else if quad_pos =? 1
      then raise BinasciiError "Invalid base64-encoded string"
      else raise BinasciiError "Incorrect padding"
  | this_ch :: rest =>
      if this_ch =? PAD then
        if 2 <=? quad_pos then
          if 4 <=? quad_pos + (pads + 1) then Ok []
          else a2b_base64 rest quad_pos leftchar (pads + 1)
        else a2b_base64 rest quad_pos leftchar pads
      else
        match a2b this_ch with
        | None => a2b_base64 rest quad_pos leftchar pads
        | Some v =>
            if quad_pos =? 0 then a2b_base64 rest 1 v 0
            else if quad_pos =? 1 then
              out <- a2b_base64 rest 2 (v mod 16) 0 ;;
              Ok (leftchar * 4 + v / 16 :: out)
            else if quad_pos =? 2 then
              out <- a2b_base64 rest 3 (v mod 4) 0 ;;
              Ok (leftchar * 16 + v / 4 :: out)
            else
              out <- a2b_base64 rest 0 0 0 ;;
              Ok (leftchar * 64 + v :: out)
        end
  end.

(** A [str] argument must be ASCII; it is then decoded as its bytes. *)
Definition b64decode (s : str) : result bytes :=
  if forallb (in_range 0 127) s then a2b_base64 s 0 0 0
  else raise ValueError "string argument should contain only ASCII characters".

End Pybase64.

(** ** [src/ciphers/base64_mod.py] *)
Module Base64Mod.

Definition encode_base64 (plaintext : str) : result str :=
  b <- utf8_encode plaintext ;;
  utf8_decode (Pybase64.b64encode b).

Definition decode_base64 (b64text : str) : result str :=
  try_except
    (b <- Pybase64.b64decode b64text ;; utf8_decode b)
    Exception
    (fun exc => raise_from ValueError "Invalid Base64 input" exc).

End Base64Mod.
Import Base64Mod.

(** ** [src/utils/crypto_helpers.py] ([pad] and [unpad]) *)
Module CryptoHelpers.

Definition BLOCK_SIZE : Z := 16.

Definition pad (data : bytes) : result bytes :=
  let pad_len := BLOCK_SIZE - Z.of_nat (List.length data) mod BLOCK_SIZE in
  padding <- bytes_of_list (list_repeat pad_len pad_len) ;;
  Ok (data ++ padding).

Definition unpad (data : bytes) : result bytes :=
  match data with
  | [] => raise ValueError "Cannot unpad empty data"
  | _ :: _ =>
      pad_len <- str_getitem data (-1) ;;
      if (pad_len <? 1) || (pad_len >? BLOCK_SIZE) then
        raise ValueError "Invalid padding length"
      else
        expected <- bytes_of_list (list_repeat pad_len pad_len) ;;
        if negb (bytes_eqb (slice_from data (- pad_len)) expected) then
          raise ValueError "Invalid PKCS7 padding bytes"
        else Ok (slice_to data (- pad_len))
  end.

End CryptoHelpers.
Import CryptoHelpers.

(** ** Definitions used by the statements and proofs *)

(** The integers of [lo, lo + n). *)
Definition zrange (lo : Z) (n : nat) : list Z :=
  map (fun i => lo + Z.of_nat i) (seq 0 n).

Definition is_upper_letter (c : Z) : bool := in_range 65 90 c.
Definition is_lower_letter (c : Z) : bool := in_range 97 122 c.

(** A-Z or a-z *)
Definition is_letter (c : Z) : bool := is_upper_letter c || is_lower_letter c.

(** U+212A KELVIN SIGN: not a letter of A-Z/a-z, yet its lower case is
    the ASCII letter k. *)
Definition KELVIN : Z := 0x212A.

(** What [_shift_char] computes, case by case. *)
Definition shift_char_cases (ch shift : Z) : result Z :=
  if is_upper_letter ch then Ok (65 + (ch - 65 + shift) mod 26)
  else if is_lower_letter ch then Ok (97 + (ch - 97 + shift) mod 26)
  else if ch =? KELVIN then raise ValueError "substring not found"
  else Ok ch.

(** An entry of [lower_table] whose images miss a-z, or one of the two
    entries that reach it: A-Z and the Kelvin sign. *)
Definition entry_misses_az (e : Z * Z * Z * Z) : bool :=
  let '(lo, hi, stride, delta) := e in
  (hi + delta <? 97) || (122 <? lo + delta)
  || ((65 <=? lo) && (hi <=? 90))
  || ((lo =? KELVIN) && (hi =? KELVIN)).

Definition ok_eqb (r : result Z) (v : Z) : bool :=
  match r with Ok a => a =? v | Raise _ => false end.

Definition ok_str_eqb (r : result str) (v : str) : bool :=
  match r with Ok a => bytes_eqb a v | Raise _ => false end.

(** The rotation of one character by [k] places inside its own case;
    anything but A-Z and a-z is left alone. *)
Definition rot_char (k ch : Z) : Z :=
  if is_upper_letter ch then 65 + (ch - 65 + k) mod 26
  else if is_lower_letter ch then 97 + (ch - 97 + k) mod 26
  else ch.

(** [l] rotated left by [n] places. *)
Definition rotate (n : Z) (l : str) : str :=
  skipn (Z.to_nat n) l ++ firstn (Z.to_nat n) l.

(** Decryption as the specification words it: encryption with the
    effective rotation [(26 - norm) mod 26], where [norm] is the shift
    reduced to [0, 25]. *)
Definition decrypt_caesar_spec (ciphertext : str) (shift : Z) : result str :=
  let norm := ((shift mod 26) + 26) mod 26 in
  encrypt_caesar ciphertext ((26 - norm) mod 26).

(** [raises_only P r]: if [r] is a raised exception, it satisfies [P]. *)
Definition raises_only {A} (P : exn -> Prop) (r : result A) : Prop :=
  match r with Ok _ => True | Raise e => P e end.

Definition is_byte (b : Z) : bool := in_range 0 255 b.
Definition is_ascii (b : Z) : bool := in_range 0 127 b.

(** A six-bit value has an ASCII symbol other than the padding character,
    and the symbol's value is the one it started from. *)
Definition sextet_ok (v : Z) : bool :=
  let c := Pybase64.b2a v in
  is_ascii c && negb (c =? Pybase64.PAD)
  && match Pybase64.a2b c with Some w => w =? v | None => false end.

(** A character of the Base64 alphabet, or the padding character. *)
Definition is_b64_char (c : Z) : bool :=
  str_contains Pybase64.b64_alphabet [c] || (c =? Pybase64.PAD).

(** Unicode scalar values: the code points UTF-8 can represent. *)
Definition is_scalar (c : Z) : bool :=
  in_range 0 0x10FFFF c && negb (is_surrogate c).

(** ** Further definitions used by the statements *)

(** The text holds a Kelvin sign. *)
Definition has_kelvin (x : str) : bool := existsb (Z.eqb KELVIN) x.

(** Any code point, surrogates included. *)
Definition is_codepoint (c : Z) : bool := in_range 0 0x10FFFF c.

Definition is_pad (c : Z) : bool := c =? Pybase64.PAD.

(** ** [src/utils/io_helpers.py] ([read_text_file] and [write_text_file])

    The operating system is a parameter: an [os] answers the calls the
    helpers make.  Paths are POSIX paths, and text files are written
    with the POSIX line separator, so that writing translates nothing;
    reading has universal newlines, as [open] does by default. *)
Module IoHelpers.

Record os : Type := {
  (** [os.path.exists(path)] *)
  path_exists : str -> bool;
  (** The bytes of the file [open(path, "r")] gives access to, or the
      exception [open] raises. *)
  read_bytes : str -> result bytes;
  (** [os.makedirs(path, exist_ok=True)] *)
  makedirs : str -> result unit;
  (** [open(path, "w")], which creates the file or empties it. *)
  open_write : str -> result unit
}.

(** What a run does to the outside, in order. *)
Inductive event : Type :=
| Echo (text : str)              (* [click.echo(text)] *)
| MadeDirs (path : str)          (* [os.makedirs] returned *)
| Opened (path : str)            (* the file exists and is empty *)
| Stored (path : str) (content : bytes).  (* the file holds [content] *)

(** How a run ends, when it does not return. *)
Inductive ending : Type :=
| Exits (code : Z)               (* [sys.exit(code)] *)
| Propagates (e : exn).          (* an exception nobody caught *)

Inductive outcome (A : Type) : Type :=
| Done (a : A)
| Stop (e : ending).
Arguments Done {A} a.
Arguments Stop {A} e.

(** A computation with effects: the events it causes and its outcome. *)
Definition io (A : Type) : Type := (list event * outcome A)%type.

Definition ret {A} (a : A) : io A := ([], Done a).

Definition io_bind {A B} (m : io A) (k : A -> io B) : io B :=
  match m with
  | (ev, Done a) => let '(ev', o) := k a in (ev ++ ev', o)
  | (ev, Stop e) => (ev, Stop e)
  end.

Definition emit (e : event) : io unit := ([e], Done tt).

(** A call that may raise, outside of any handler. *)
Definition lift {A} (r : result A) : io A :=
  match r with
  | Ok a => ([], Done a)
  | Raise e => ([], Stop (Propagates e))
  end.

Definition SEP : Z := 47.
Definition is_sep (c : Z) : bool := c =? SEP.

(** [p[:p.rfind("/") + 1]] *)
Fixpoint upto_last_sep (p : str) : str :=
  match p with
  | [] => []
  | c :: rest =>
      if existsb is_sep rest then c :: upto_last_sep rest
      else if is_sep c then [c] else []
  end.

Fixpoint lstrip_sep (s : str) : str :=
  match s with
  | [] => []
  | c :: rest => if is_sep c then lstrip_sep rest else s
  end.

(** [s.rstrip("/")] *)
Definition rstrip_sep (s : str) : str := rev (lstrip_sep (rev s)).

(** [os.path.dirname(p)] *)
Definition dirname (p : str) : str :=
  let head := upto_last_sep p in
  match head with
  | [] => head
  | _ :: _ => if negb (forallb is_sep head) then rstrip_sep head else head
  end.

(** The translation of line ends on reading: CR LF and a lone CR both
    become LF. *)
Fixpoint universal_newlines (s : str) : str :=
  match s with
  | [] => []
  | 13 :: rest =>
      10 :: match rest with
            | 10 :: rest' => universal_newlines rest'
            | _ => universal_newlines rest
            end
  | c :: rest => c :: universal_newlines rest
  end.

Definition read_text_file (sys : os) (path : str) : result str :=
  b <- read_bytes sys path ;;
  text <- utf8_decode b ;;
  Ok (universal_newlines text).

(** [os.path.dirname(path) or "."] *)
Definition parent_dir (path : str) : str :=
  match dirname path with [] => lit "." | d => d end.

Definition write_text_file (sys : os) (path text : str) : io unit :=
  let dir := parent_dir path in
  io_bind (lift (makedirs sys dir)) (fun _ =>
  io_bind (emit (MadeDirs dir)) (fun _ =>
  io_bind (lift (open_write sys path)) (fun _ =>
  io_bind (emit (Opened path)) (fun _ =>
  io_bind (lift (utf8_encode text)) (fun content =>
  emit (Stored path content)))))).

End IoHelpers.
Import IoHelpers.

Notation "x <~ e ;; k" := (io_bind e (fun x => k))
  (at level 61, e at next level, right associativity).

(** ** [src/cli.py] (the [encrypt] and [decrypt] commands)

    The commands are the decorated functions, called with the values
    [click] parsed: the algorithm name, the input value, the integer
    shift and the optional output path. *)
Module Cli.

(** [str(exc)] for an exception built from one message. *)
Definition exn_str (e : exn) : str := lit (exn_msg e).

Definition _read_input (sys : os) (value : str) : result str :=
  if path_exists sys value then read_text_file sys value else Ok value.

Definition _write_output (sys : os) (output_path : option str) (text : str)
    : io str :=
  match output_path with
  | Some (c :: p) =>
      _ <~ write_text_file sys (c :: p) text ;;
      ret (lit "Saved to " ++ c :: p)
  | _ =>
      _ <~ emit (Echo text) ;;
      ret (lit "Printed to stdout")
  end.

Definition encrypt (sys : os) (algo input_value : str) (shift : Z)
    (output_path : option str) : io unit :=
  text <~ lift (_read_input sys input_value) ;;
  result <~ lift (if bytes_eqb algo (lit "caesar")
                  then encrypt_caesar text shift
                  else if bytes_eqb algo (lit "base64")
                  then encode_base64 text
                  else Ok []) ;;
  location <~ _write_output sys output_path result ;;
  emit (Echo (lit "Encrypted successfully (" ++ algo ++ lit "). " ++ location)).

Definition decrypt (sys : os) (algo input_value : str) (shift : Z)
    (output_path : option str) : io unit :=
  text <~ lift (_read_input sys input_value) ;;
  result <~ (if bytes_eqb algo (lit "caesar")
             then lift (decrypt_caesar text shift)
             else if bytes_eqb algo (lit "base64")
             then match decode_base64 text with
                  | Ok r => ret r
                  | Raise exc =>
                      if issubclass (exn_class exc) ValueError
                      then _ <~ emit (Echo (lit "Error: " ++ exn_str exc)) ;;
                           ([], Stop (Exits 1))
                      else lift (Raise exc)
                  end
             else ret []) ;;
  location <~ _write_output sys output_path result ;;
  emit (Echo (lit "Decrypted successfully (" ++ algo ++ lit "). " ++ location)).

End Cli.

(** ** [src/gui.py] (the handlers of the two buttons)

    A handler reads the text and the algorithm, and the shift when the
    algorithm needs it; [shift_get] is what [shift_var.get()] does, an
    integer or the exception Tk raises on a field that holds none.  The
    handler's effect is the value it gives [result_var]. *)
Module Gui.

(** The value given to [result_var]; [ShownError exc] stands for the
    text [f"Error: {exc}"]. *)
Inductive display : Type :=
| Shown (text : str)
| ShownError (exc : exn).

Definition do_encrypt (text algo : str) (shift_get : result Z)
    : result display :=
  try_except
    (result <- (if bytes_eqb algo (lit "caesar")
                then shift <- shift_get ;; encrypt_caesar text shift
                else if bytes_eqb algo (lit "base64")
                then encode_base64 text
                else Ok (lit "Unsupported algorithm")) ;;
     Ok (Shown result))
    Exception
    (fun exc => Ok (ShownError exc)).

Definition do_decrypt (text algo : str) (shift_get : result Z)
    : result display :=
  try_except
    (result <- (if bytes_eqb algo (lit "caesar")
                then shift <- shift_get ;; decrypt_caesar text shift
                else if bytes_eqb algo (lit "base64")
                then decode_base64 text
                else Ok (lit "Unsupported algorithm")) ;;
     Ok (Shown result))
    Exception
    (fun exc => Ok (ShownError exc)).

End Gui.

(** An operating system without files, where every directory can be made
    and every file opened for writing; the witnesses run in it. *)
Definition bare_os : os :=
  {| path_exists := fun _ => false;
     read_bytes := fun _ => raise Exception "No such file or directory";
     makedirs := fun _ => Ok tt;
     open_write := fun _ => Ok tt |}.

(** An operating system whose one file is [path], holding [content]. *)
Definition os_with_file (path : str) (content : bytes) : os :=
  {| path_exists := fun p => bytes_eqb p path;
     read_bytes := fun p =>
       if bytes_eqb p path then Ok content
       else raise Exception "No such file or directory";
     makedirs := fun _ => Ok tt;
     open_write := fun _ => Ok tt |}.

(** * Properties *)

(** ** Generic facts about the runtime model *)
Section RuntimeFacts.

(** A boolean property checked on every integer of [lo, lo + n) holds on
    that interval. *)
Lemma forallb_zrange (P : Z -> bool) (lo : Z) (n : nat) :
  forallb P (zrange lo n) = true ->
  forall c, lo <= c < lo + Z.of_nat n -> P c = true.
Proof.
  intros H c Hc. rewrite forallb_forall in H. apply H.
  unfold zrange. apply in_map_iff. exists (Z.to_nat (c - lo)). split.
  - lia.
  - apply in_seq. lia.
Qed.

Lemma startswith_single (hay : str) (x : Z) :
  startswith hay [x] = match hay with [] => false | h :: _ => x =? h end.
Proof.
  destruct hay as [|h t]; simpl; [reflexivity|].
  destruct t; simpl; apply andb_true_r.
Qed.

Lemma str_find_single_none (hay : str) (x : Z) :
  str_find hay [x] = None <-> ~ In x hay.
Proof.
  induction hay as [|h t IH].
  - simpl. tauto.
  - cbn [str_find]. rewrite startswith_single.
    destruct (Z.eqb_spec x h) as [->|Hne].
    + split; [discriminate | intros H; exfalso; apply H; left; reflexivity].
    + destruct (str_find t [x]) as [i|] eqn:E; simpl.
      * split; [discriminate|]. intros H. exfalso.
        destruct IH as [_ IH]. assert (Hn : ~ In x t) by (intros Hin; apply H; right; exact Hin).
        specialize (IH Hn). discriminate.
      * split; [|reflexivity]. intros _ [Heq|Hin]; [congruence|].
        destruct IH as [IH _]. apply (IH eq_refl). exact Hin.
Qed.

Lemma str_contains_single (hay : str) (x : Z) :
  str_contains hay [x] = true <-> In x hay.
Proof.
  unfold str_contains. pose proof (str_find_single_none hay x) as H.
  destruct (str_find hay [x]).
  - split; [|reflexivity]. intros _.
    destruct (in_dec Z.eq_dec x hay) as [Hin|Hn]; [exact Hin|].
    apply H in Hn. discriminate.
  - split; [discriminate|]. intros Hin. exfalso. apply (proj1 H eq_refl Hin).
Qed.

End RuntimeFacts.

(** ** The Caesar cipher *)
Section CaesarFacts.

Lemma in_ALPHABET (c : Z) : In c ALPHABET <-> 97 <= c <= 122.
Proof.
  unfold ALPHABET, lit. cbn -[Z.le]. lia.
Qed.

Lemma lookup_lower_entry (t : list (Z * Z * Z * Z)) (c l : Z) :
  lookup_lower t c = Some l ->
  exists lo hi stride delta,
    In (lo, hi, stride, delta) t /\ lo <= c <= hi /\ l = c + delta.
Proof.
  induction t as [|[[[lo hi] stride] delta] t IH]; simpl; [discriminate|].
  destruct ((lo <=? c) && (c <=? hi) && ((c - lo) mod stride =? 0)) eqn:E.
  - intros [= <-]. exists lo, hi, stride, delta.
    apply andb_prop in E as [E _]. apply andb_prop in E as [E1 E2].
    repeat split; [left; reflexivity | lia | lia].
  - intros H. destruct (IH H) as (lo' & hi' & st' & d' & Hin & Hr & Hl).
    exists lo', hi', st', d'. repeat split; [right; exact Hin | lia | lia | exact Hl].
Qed.

Lemma lower_table_misses_az : forallb entry_misses_az lower_table = true.
Proof. vm_compute. reflexivity. Qed.

(** The only characters whose lower case lies in [ALPHABET] are the
    letters A-Z and a-z and the Kelvin sign. *)
Lemma lower_in_ALPHABET (c : Z) :
  str_contains ALPHABET (chr_lower c) = true ->
  is_letter c = true \/ c = KELVIN.
Proof.
  unfold chr_lower.
  destruct (c =? 304) eqn:E304.
  - vm_compute. discriminate.
  - destruct (lookup_lower lower_table c) as [l|] eqn:El.
    + intros H. apply str_contains_single, in_ALPHABET in H.
      apply lookup_lower_entry in El as (lo & hi & st & d & Hin & Hr & ->).
      pose proof lower_table_misses_az as Hall.
      rewrite forallb_forall in Hall. specialize (Hall _ Hin).
      unfold entry_misses_az, KELVIN in Hall.
      unfold is_letter, is_upper_letter, is_lower_letter, in_range, KELVIN.
      repeat (apply orb_prop in Hall as [Hall|Hall]).
      * lia.
      * lia.
      * left. apply andb_prop in Hall as [H1 H2].
        apply orb_true_intro. left. apply andb_true_intro. lia.
      * right. lia.
    + intros H. apply str_contains_single, in_ALPHABET in H.
      left. unfold is_letter, is_upper_letter, is_lower_letter, in_range.
      apply orb_true_intro. right. apply andb_true_intro. lia.
Qed.

Lemma shift_char_mod (ch shift : Z) :
  _shift_char ch shift = _shift_char ch (shift mod 26).
Proof.
  unfold _shift_char.
  destruct (negb (str_contains ALPHABET (chr_lower ch))); [reflexivity|].
  destruct (str_index _ [ch]) as [idx|e]; simpl; [|reflexivity].
  rewrite Z.add_mod_idemp_r by lia. reflexivity.
Qed.

Lemma shift_char_letters_checked :
  forallb (fun k =>
    forallb (fun c => ok_eqb (_shift_char c k) (65 + (c - 65 + k) mod 26))
            (zrange 65 26)
    && forallb (fun c => ok_eqb (_shift_char c k) (97 + (c - 97 + k) mod 26))
               (zrange 97 26))
    (zrange 0 26) = true.
Proof. vm_compute. reflexivity. Qed.

Lemma ok_eqb_eq (r : result Z) (v : Z) : ok_eqb r v = true -> r = Ok v.
Proof.
  destruct r as [a|e]; simpl; [|discriminate].
  intros H. apply Z.eqb_eq in H. congruence.
Qed.

(** [_shift_char], characterised on every character and every shift. *)
Lemma shift_char_spec (ch shift : Z) :
  _shift_char ch shift = shift_char_cases ch shift.
Proof.
  unfold shift_char_cases.
  destruct (is_upper_letter ch) eqn:EU; [|destruct (is_lower_letter ch) eqn:EL].
  - rewrite shift_char_mod.
    pose proof (forallb_zrange _ _ _ shift_char_letters_checked (shift mod 26)) as H.
    assert (Hk : 0 <= shift mod 26 < 0 + Z.of_nat 26) by (pose proof (Z.mod_pos_bound shift 26); lia).
    specialize (H Hk). apply andb_prop in H as [H _].
    unfold is_upper_letter, in_range in EU.
    assert (Hc : 65 <= ch < 65 + Z.of_nat 26) by lia.
    pose proof (forallb_zrange _ _ _ H ch Hc) as H'. apply ok_eqb_eq in H'.
    rewrite H'. f_equal. f_equal. rewrite Z.add_mod_idemp_r by lia. reflexivity.
  - rewrite shift_char_mod.
    pose proof (forallb_zrange _ _ _ shift_char_letters_checked (shift mod 26)) as H.
    assert (Hk : 0 <= shift mod 26 < 0 + Z.of_nat 26) by (pose proof (Z.mod_pos_bound shift 26); lia).
    specialize (H Hk). apply andb_prop in H as [_ H].
    unfold is_lower_letter, in_range in EL.
    assert (Hc : 97 <= ch < 97 + Z.of_nat 26) by lia.
    pose proof (forallb_zrange _ _ _ H ch Hc) as H'. apply ok_eqb_eq in H'.
    rewrite H'. f_equal. f_equal. rewrite Z.add_mod_idemp_r by lia. reflexivity.
  - destruct (Z.eqb_spec ch KELVIN) as [->|Hne].
    + rewrite shift_char_mod.
      unfold _shift_char. vm_compute. reflexivity.
    + unfold _shift_char.
      destruct (str_contains ALPHABET (chr_lower ch)) eqn:E; [|reflexivity].
      apply lower_in_ALPHABET in E as [E|E]; [|contradiction].
      unfold is_letter in E. rewrite EU, EL in E. discriminate.
Qed.

Lemma join_map_ext (f g : Z -> result Z) (x : str) :
  (forall c, f c = g c) -> join_map f x = join_map g x.
Proof.
  intros H. induction x as [|c x IH]; simpl; [reflexivity|].
  rewrite H, IH. reflexivity.
Qed.

Lemma bytes_eqb_eq (a b : bytes) : bytes_eqb a b = true <-> a = b.
Proof.
  revert b. induction a as [|x a IH]; intros [|y b]; simpl;
    try (split; [discriminate | discriminate]); [tauto|].
  rewrite andb_true_iff, Z.eqb_eq, IH.
  split; [intros [-> ->]; reflexivity | intros [= -> ->]; tauto].
Qed.

Lemma ok_str_eqb_eq (r : result str) (v : str) :
  ok_str_eqb r v = true -> r = Ok v.
Proof.
  destruct r as [a|e]; simpl; [|discriminate].
  intros H. apply bytes_eqb_eq in H. congruence.
Qed.

Lemma encrypt_caesar_mod (x : str) (s : Z) :
  encrypt_caesar x s = encrypt_caesar x (s mod 26).
Proof.
  unfold encrypt_caesar. rewrite Z.mod_mod by lia. reflexivity.
Qed.

Lemma alphabets_rotate_checked :
  forallb (fun k =>
    ok_str_eqb (encrypt_caesar ALPHABET k) (rotate k ALPHABET)
    && ok_str_eqb (encrypt_caesar ALPHABET_upper k) (rotate k ALPHABET_upper))
    (zrange 0 26) = true.
Proof. vm_compute. reflexivity. Qed.

(** Without the Kelvin sign the cipher is a plain [map]. *)
Lemma join_map_shift_char (k : Z) (x : str) :
  ~ In KELVIN x ->
  join_map (fun ch => _shift_char ch k) x = Ok (map (rot_char k) x).
Proof.
  induction x as [|c x IH]; intros Hk; simpl; [reflexivity|].
  rewrite IH by (intros Hin; apply Hk; right; exact Hin).
  rewrite shift_char_spec. unfold shift_char_cases, rot_char.
  destruct (is_upper_letter c); [reflexivity|].
  destruct (is_lower_letter c); [reflexivity|].
  destruct (Z.eqb_spec c KELVIN) as [->|_]; [|reflexivity].
  exfalso. apply Hk. left. reflexivity.
Qed.

(** With it, the call raises. *)
Lemma join_map_shift_char_kelvin (k : Z) (x : str) :
  In KELVIN x ->
  join_map (fun ch => _shift_char ch k) x
  = raise ValueError "substring not found".
Proof.
  induction x as [|c x IH]; intros Hk; simpl; [contradiction|].
  rewrite shift_char_spec. unfold shift_char_cases.
  destruct (is_upper_letter c) eqn:EU; [|destruct (is_lower_letter c) eqn:EL].
  - destruct Hk as [->|Hk]; [vm_compute in EU; discriminate|].
    simpl. rewrite (IH Hk). reflexivity.
  - destruct Hk as [->|Hk]; [vm_compute in EL; discriminate|].
    simpl. rewrite (IH Hk). reflexivity.
  - destruct (Z.eqb_spec c KELVIN) as [->|Hne]; [reflexivity|].
    destruct Hk as [Hk|Hk]; [congruence|].
    simpl. rewrite (IH Hk). reflexivity.
Qed.

(** The inputs on which the two operations return are exactly those
    without a Kelvin sign. *)
Lemma encrypt_caesar_returns_iff (x : str) (s : Z) :
  is_ok (encrypt_caesar x s) = true <-> ~ In KELVIN x.
Proof.
  unfold encrypt_caesar. split.
  - intros H Hin. rewrite (join_map_shift_char_kelvin _ _ Hin) in H. discriminate.
  - intros H. rewrite (join_map_shift_char _ _ H). reflexivity.
Qed.

Lemma decrypt_caesar_returns_iff (x : str) (s : Z) :
  is_ok (decrypt_caesar x s) = true <-> ~ In KELVIN x.
Proof.
  unfold decrypt_caesar. split.
  - intros H Hin. rewrite (join_map_shift_char_kelvin _ _ Hin) in H. discriminate.
  - intros H. rewrite (join_map_shift_char _ _ H). reflexivity.
Qed.

Lemma rot_char_not_kelvin (k c : Z) : c <> KELVIN -> rot_char k c <> KELVIN.
Proof.
  unfold rot_char, is_upper_letter, is_lower_letter, in_range, KELVIN.
  intros Hc. pose proof (Z.mod_pos_bound (c - 65 + k) 26).
  pose proof (Z.mod_pos_bound (c - 97 + k) 26).
  destruct ((65 <=? c) && (c <=? 90)); [lia|].
  destruct ((97 <=? c) && (c <=? 122)); [lia|exact Hc].
Qed.

Lemma rot_char_inverse (k c : Z) : rot_char (- (k mod 26)) (rot_char (k mod 26) c) = c.
Proof.
  unfold rot_char, is_upper_letter, is_lower_letter, in_range.
  pose proof (Z.mod_pos_bound k 26).
  destruct ((65 <=? c) && (c <=? 90)) eqn:EU.
  - pose proof (Z.mod_pos_bound (c - 65 + k mod 26) 26).
    replace ((65 <=? 65 + (c - 65 + k mod 26) mod 26)
             && (65 + (c - 65 + k mod 26) mod 26 <=? 90)) with true
      by (symmetry; apply andb_true_intro; lia).
    replace (65 + (c - 65 + k mod 26) mod 26 - 65 + - (k mod 26))
      with ((c - 65 + k mod 26) mod 26 - k mod 26) by lia.
    rewrite Zminus_mod_idemp_l.
    replace (c - 65 + k mod 26 - k mod 26) with (c - 65) by lia.
    rewrite Z.mod_small by lia. lia.
  - destruct ((97 <=? c) && (c <=? 122)) eqn:EL.
    + pose proof (Z.mod_pos_bound (c - 97 + k mod 26) 26).
      replace ((65 <=? 97 + (c - 97 + k mod 26) mod 26)
               && (97 + (c - 97 + k mod 26) mod 26 <=? 90)) with false
        by (symmetry; apply andb_false_intro2; lia).
      replace ((97 <=? 97 + (c - 97 + k mod 26) mod 26)
               && (97 + (c - 97 + k mod 26) mod 26 <=? 122)) with true
        by (symmetry; apply andb_true_intro; lia).
      replace (97 + (c - 97 + k mod 26) mod 26 - 97 + - (k mod 26))
        with ((c - 97 + k mod 26) mod 26 - k mod 26) by lia.
      rewrite Zminus_mod_idemp_l.
      replace (c - 97 + k mod 26 - k mod 26) with (c - 97) by lia.
      rewrite Z.mod_small by lia. lia.
    + rewrite EU, EL. reflexivity.
Qed.

(** The round trip holds on every text without a Kelvin sign, for every
    integer shift. *)
Lemma caesar_round_trip_without_kelvin (x : str) (s : Z) :
  ~ In KELVIN x ->
  (c <- encrypt_caesar x s ;; decrypt_caesar c s) = Ok x.
Proof.
  intros Hk. unfold encrypt_caesar, decrypt_caesar.
  rewrite (join_map_shift_char _ _ Hk). simpl.
  rewrite join_map_shift_char.
  - f_equal. rewrite map_map. rewrite <- (map_id x) at 2.
    apply map_ext. intros c. apply rot_char_inverse.
  - rewrite in_map_iff. intros (c & Hc & Hin).
    revert Hc. apply rot_char_not_kelvin. intros ->. apply Hk. exact Hin.
Qed.

(** Length and non-letters are preserved on every text without a Kelvin
    sign, by both operations. *)
Lemma caesar_non_letters_without_kelvin (x : str) (s : Z) :
  ~ In KELVIN x ->
  exists y z,
    encrypt_caesar x s = Ok y /\ decrypt_caesar x s = Ok z /\
    List.length y = List.length x /\ List.length z = List.length x /\
    forall i c, nth_error x i = Some c -> is_letter c = false ->
      nth_error y i = Some c /\ nth_error z i = Some c.
Proof.
  intros Hk. unfold encrypt_caesar, decrypt_caesar.
  rewrite !(join_map_shift_char _ _ Hk).
  eexists _, _. split; [reflexivity|]. split; [reflexivity|].
  rewrite !length_map. split; [reflexivity|]. split; [reflexivity|].
  intros i c Hi Hl. rewrite !nth_error_map, Hi. simpl.
  unfold is_letter in Hl. apply orb_false_elim in Hl as [HU HL].
  unfold rot_char. rewrite HU, HL. split; reflexivity.
Qed.

End CaesarFacts.

(** ** Claims about the Caesar cipher *)
Section CaesarClaims.

(** C2 (totality of the shift cipher), evaluated where it breaks.  The
    one-character text U+212A (KELVIN SIGN) passes the letter test of
    [_shift_char], because its lower case is the letter k, but it occurs
    in neither alphabet, so [base.index(ch)] raises [ValueError]: both
    [encrypt_caesar] and [decrypt_caesar] raise on it, for shift 3 as for
    any other shift. *)
Theorem caesar_raises_on_kelvin_sign :
  chr_lower KELVIN = lit "k" /\
  chr_islower KELVIN = false /\
  encrypt_caesar [KELVIN] 3 = raise ValueError "substring not found" /\
  decrypt_caesar [KELVIN] 3 = raise ValueError "substring not found".
Proof. repeat split; vm_compute; reflexivity. Qed.

(** C3 (shift round trip), evaluated where it breaks.  On the text
    [300 K], written with the Kelvin sign, [encrypt_caesar] raises, so
    decrypting the encryption does not give the text back. *)
Theorem caesar_round_trip_breaks_on_kelvin_sign :
  let x := lit "300 " ++ [KELVIN] in
  encrypt_caesar x 5 = raise ValueError "substring not found" /\
  (c <- encrypt_caesar x 5 ;; decrypt_caesar c 5) <> Ok x.
Proof. split; vm_compute; [reflexivity | discriminate]. Qed.

(** C5 (shift normalization).  For every text and every integer shift,
    encrypting with the shift, with the shift plus 26 and with the shift
    minus 26 have the same outcome.  The rotation applied is the shift
    modulo 26, which lies in [0, 25] also for negative shifts and equals
    the specification's [((shift rem 26) + 26) mod 26]: the lower-case and
    the upper-case alphabet come out rotated by that many places. *)
Theorem encrypt_caesar_shift_normalization (x : str) (s : Z) :
  encrypt_caesar x s = encrypt_caesar x (s + 26) /\
  encrypt_caesar x s = encrypt_caesar x (s - 26) /\
  encrypt_caesar x s = encrypt_caesar x (s mod 26) /\
  0 <= s mod 26 <= 25 /\
  s mod 26 = (Z.rem s 26 + 26) mod 26 /\
  encrypt_caesar ALPHABET s = Ok (rotate (s mod 26) ALPHABET) /\
  encrypt_caesar ALPHABET_upper s = Ok (rotate (s mod 26) ALPHABET_upper).
Proof.
  assert (Hk : 0 <= s mod 26 < 0 + Z.of_nat 26)
    by (pose proof (Z.mod_pos_bound s 26); lia).
  pose proof (forallb_zrange _ _ _ alphabets_rotate_checked _ Hk) as Hrot.
  apply andb_prop in Hrot as [Hlo Hup].
  apply ok_str_eqb_eq in Hlo. apply ok_str_eqb_eq in Hup.
  repeat split.
  - unfold encrypt_caesar.
    replace (s + 26) with (s + 1 * 26) by lia.
    rewrite Z.mod_add by lia. reflexivity.
  - unfold encrypt_caesar.
    replace (s - 26) with (s + (-1) * 26) by lia.
    rewrite Z.mod_add by lia. reflexivity.
  - apply encrypt_caesar_mod.
  - lia.
  - lia.
  - pose proof (Z.quot_rem' s 26) as Hq.
    replace (Z.rem s 26 + 26) with (s + (1 - Z.quot s 26) * 26) by lia.
    rewrite Z.mod_add by lia. reflexivity.
  - rewrite encrypt_caesar_mod. exact Hlo.
  - rewrite encrypt_caesar_mod. exact Hup.
Qed.

(** C6 (decryption is encryption with the inverse rotation).  For every
    text and every integer shift, [decrypt_caesar] has the outcome of
    [encrypt_caesar] with the negated shift, and the outcome of encryption
    with the effective rotation [(26 - norm) mod 26] of the
    specification. *)
Theorem decrypt_caesar_is_inverse_rotation (x : str) (s : Z) :
  decrypt_caesar x s = encrypt_caesar x (- s) /\
  decrypt_caesar x s = decrypt_caesar_spec x s.
Proof.
  unfold decrypt_caesar_spec, decrypt_caesar, encrypt_caesar.
  split; apply join_map_ext; intros c;
    rewrite (shift_char_mod c (- (s mod 26)));
    [rewrite (shift_char_mod c ((- s) mod 26))
    |rewrite (shift_char_mod c (((26 - (s mod 26 + 26) mod 26) mod 26) mod 26))];
    f_equal.
  - rewrite Z.mod_mod by lia.
    replace (- (s mod 26)) with (- s + (s / 26) * 26)
      by (pose proof (Z.div_mod s 26); lia).
    rewrite Z.mod_add by lia. reflexivity.
  - rewrite !Z.mod_mod by lia.
    replace ((s mod 26 + 26) mod 26) with (s mod 26)
      by (replace (s mod 26 + 26) with (s mod 26 + 1 * 26) by lia;
          rewrite Z.mod_add by lia; rewrite Z.mod_mod by lia; reflexivity).
    replace (26 - s mod 26) with (- (s mod 26) + 1 * 26) by lia.
    rewrite Z.mod_add by lia. reflexivity.
Qed.

(** C7 (non-letter identity and length), evaluated where it breaks.  In
    the text [300 K] the Kelvin sign at position 4 is a character outside
    A-Z/a-z; neither operation returns it unchanged at that position,
    because both raise and return no text at all. *)
Theorem caesar_non_letter_kelvin_sign_not_returned :
  let x := lit "300 " ++ [KELVIN] in
  nth_error x 4 = Some KELVIN /\
  is_letter KELVIN = false /\
  encrypt_caesar x 1 = raise ValueError "substring not found" /\
  decrypt_caesar x 1 = raise ValueError "substring not found".
Proof. repeat split; vm_compute; reflexivity. Qed.

(** C8 (negative shift scenario).
    [encrypt_caesar("Hello, World!", -3)] returns ["Ebiil, Tloia!"]. *)
Theorem encrypt_caesar_hello_world_minus_3 :
  encrypt_caesar (lit "Hello, World!") (-3) = Ok (lit "Ebiil, Tloia!").
Proof. vm_compute. reflexivity. Qed.

End CaesarClaims.

(** ** UTF-8 *)
Section Utf8Facts.

Ltac zbool :=
  repeat match goal with
  | H : (_ && _) = true |- _ => apply andb_prop in H as [? ?]
  | H : negb _ = true |- _ => apply negb_true_iff in H
  | H : (_ && _) = false |- _ => apply andb_false_iff in H
  | H : (_ <=? _) = true |- _ => apply Z.leb_le in H
  | H : (_ <=? _) = false |- _ => apply Z.leb_gt in H
  | H : (_ <? _) = true |- _ => apply Z.ltb_lt in H
  | H : (_ <? _) = false |- _ => apply Z.ltb_ge in H
  | H : (_ =? _) = true |- _ => apply Z.eqb_eq in H
  | H : (_ =? _) = false |- _ => apply Z.eqb_neq in H
  end.

Ltac arith := zbool; Z.div_mod_to_equations; lia.

(** Settle the comparisons of the goal one at a time, dropping the
    branches that arithmetic excludes. *)
Ltac settle :=
  repeat match goal with
  | |- context [?a =? ?b] =>
      let E := fresh "E" in
      destruct (a =? b) eqn:E; [try (exfalso; arith) | try (exfalso; arith)]
  | |- context [?a <? ?b] =>
      let E := fresh "E" in
      destruct (a <? b) eqn:E; [try (exfalso; arith) | try (exfalso; arith)]
  | |- context [?a <=? ?b] =>
      let E := fresh "E" in
      destruct (a <=? b) eqn:E; [try (exfalso; arith) | try (exfalso; arith)]
  end.

Lemma utf8_char_round_trip (c : Z) (rest : bytes) :
  is_scalar c = true ->
  exists bs,
    utf8_encode_char c = Ok bs /\
    forallb is_byte bs = true /\
    utf8_decode (bs ++ rest) = (cs <- utf8_decode rest ;; Ok (c :: cs)).
Proof.
  unfold is_scalar, is_surrogate, in_range. intros H. zbool.
  assert (Hns : c < 55296 \/ 57343 < c)
    by (match goal with H : _ \/ _ |- _ => destruct H end; zbool; lia).
  unfold utf8_encode_char, is_surrogate.
  destruct (c <? 128) eqn:E1; [|destruct (c <? 2048) eqn:E2;
    [|destruct (c <? 65536) eqn:E3]].
  - eexists. split; [reflexivity|]. split.
    + unfold is_byte, in_range. cbn [forallb]. settle. reflexivity.
    + cbn [app utf8_decode]. rewrite E1. reflexivity.
  - eexists. split; [reflexivity|]. split.
    + unfold is_byte, in_range. cbn [forallb]. settle. reflexivity.
    + cbn [app utf8_decode]. unfold is_cont, in_range. settle.
      cbn [andb]. destruct (utf8_decode rest); cbn [bind]; [|reflexivity].
      do 2 f_equal. arith.
  - assert (Hs : (55296 <=? c) && (c <=? 57343) = false).
    { destruct ((55296 <=? c) && (c <=? 57343)) eqn:Es; [|reflexivity].
      zbool. lia. }
    rewrite Hs.
    eexists. split; [reflexivity|]. split.
    + unfold is_byte, in_range. cbn [forallb]. settle. reflexivity.
    + cbn [app utf8_decode]. unfold is_cont, in_range, second_lo, second_hi.
      settle; cbn [andb];
        (destruct (utf8_decode rest); cbn [bind]; [|reflexivity]);
        do 2 f_equal; arith.
  - eexists. split; [reflexivity|]. split.
    + unfold is_byte, in_range. cbn [forallb]. settle. reflexivity.
    + cbn [app utf8_decode]. unfold is_cont, in_range, second_lo, second_hi.
      settle; cbn [andb];
        (destruct (utf8_decode rest); cbn [bind]; [|reflexivity]);
        do 2 f_equal; arith.
Qed.

(** Encoding a text of scalar values succeeds, gives bytes, and decoding
    them gives the text back. *)
Lemma utf8_round_trip (x : str) :
  forallb is_scalar x = true ->
  exists bs,
    utf8_encode x = Ok bs /\ forallb is_byte bs = true /\
    utf8_decode bs = Ok x.
Proof.
  induction x as [|c x IH]; intros H.
  - exists []. repeat split.
  - cbn [forallb] in H. apply andb_prop in H as [Hc Hx].
    destruct (IH Hx) as (out & Hout & Hbytes & Hdec).
    destruct (utf8_char_round_trip c out Hc) as (bs & Hbs & Hb & Hd).
    exists (bs ++ out). cbn [utf8_encode]. rewrite Hbs, Hout. cbn [bind].
    split; [reflexivity|]. split.
    + rewrite forallb_app, Hb, Hbytes. reflexivity.
    + rewrite Hd, Hdec. reflexivity.
Qed.

(** ASCII bytes decode to the same code points. *)
Lemma utf8_decode_ascii (b : bytes) :
  forallb is_ascii b = true -> utf8_decode b = Ok b.
Proof.
  induction b as [|b0 b IH]; intros H; [reflexivity|].
  cbn [forallb] in H. apply andb_prop in H as [H0 Hb].
  cbn [utf8_decode]. unfold is_ascii, in_range in H0.
  replace (b0 <? 128) with true by (symmetry; apply Z.ltb_lt; lia).
  rewrite (IH Hb). reflexivity.
Qed.

Lemma raises_only_bind {A B} (P : exn -> Prop) (r : result A)
    (k : A -> result B) :
  raises_only P r -> (forall a, raises_only P (k a)) ->
  raises_only P (bind r k).
Proof. destruct r as [a|e]; simpl; auto. Qed.

(** Decoding raises nothing but [UnicodeDecodeError]. *)
Lemma utf8_decode_raises (b : bytes) :
  raises_only (fun e => exn_class e = UnicodeDecodeError) (utf8_decode b).
Proof.
  remember (List.length b) as n eqn:Hn.
  assert (Hle : (List.length b <= n)%nat) by lia. clear Hn.
  revert b Hle. induction n as [|n IH]; intros b Hle.
  - destruct b; [exact I | simpl in Hle; lia].
  - destruct b as [|b0 r0]; [exact I|].
    cbn [utf8_decode].
    repeat match goal with
    | |- raises_only _ (if ?c then _ else _) => destruct c
    | |- raises_only _ (match ?l with [] => _ | _ :: _ => _ end) => destruct l
    | |- raises_only _ (bind _ _) =>
        apply raises_only_bind; [apply IH; simpl in *; lia | intros; exact I]
    | |- raises_only _ bad_start => reflexivity
    | |- raises_only _ bad_cont => reflexivity
    | |- raises_only _ truncated => reflexivity
    end.
Qed.

End Utf8Facts.

(** ** Base64 *)
Section Base64Facts.

Import Pybase64.

Lemma sextets_checked : forallb sextet_ok (zrange 0 64) = true.
Proof. vm_compute. reflexivity. Qed.

Lemma sextet (v : Z) :
  0 <= v < 64 ->
  is_ascii (b2a v) = true /\ (b2a v =? PAD) = false /\ a2b (b2a v) = Some v.
Proof.
  intros Hv.
  assert (H : sextet_ok v = true)
    by (apply (forallb_zrange _ _ _ sextets_checked); simpl; lia).
  unfold sextet_ok in H.
  apply andb_prop in H as [H H3]. apply andb_prop in H as [H1 H2].
  split; [exact H1|]. split; [apply negb_true_iff; exact H2|].
  destruct (a2b (b2a v)) as [w|]; [|discriminate].
  apply Z.eqb_eq in H3. congruence.
Qed.

(** Lists, three elements at a time. *)
Lemma list_ind3 {A} (P : list A -> Prop) :
  P [] -> (forall x, P [x]) -> (forall x y, P [x; y]) ->
  (forall x y z l, P l -> P (x :: y :: z :: l)) ->
  forall l, P l.
Proof.
  intros H0 H1 H2 H3.
  fix F 1. intros [|x [|y [|z l]]].
  - exact H0.
  - exact (H1 x).
  - exact (H2 x y).
  - exact (H3 x y z l (F l)).
Qed.

Ltac sextet_step v :=
  let Ha := fresh "Ha" in let Hp := fresh "Hp" in let Hv := fresh "Hv" in
  destruct (sextet v) as (Ha & Hp & Hv);
  [Z.div_mod_to_equations; lia | rewrite ?Hp, ?Hv; clear Hp Hv].

Lemma b64encode_ascii (b : bytes) :
  forallb is_byte b = true -> forallb is_ascii (b64encode b) = true.
Proof.
  unfold is_byte, in_range.
  induction b as [|x|x y|x y z l IH] using list_ind3; intros H;
    cbn [forallb] in H; cbn [b64encode forallb].
  - reflexivity.
  - apply andb_prop in H as [Hx _]. apply andb_prop in Hx as [Hx1 Hx2].
    apply Z.leb_le in Hx1, Hx2.
    sextet_step (x / 4). sextet_step (x mod 4 * 16).
    rewrite Ha, Ha0. reflexivity.
  - apply andb_prop in H as [Hx H]. apply andb_prop in H as [Hy _].
    apply andb_prop in Hx as [Hx1 Hx2]. apply andb_prop in Hy as [Hy1 Hy2].
    apply Z.leb_le in Hx1, Hx2, Hy1, Hy2.
    sextet_step (x / 4). sextet_step (x mod 4 * 16 + y / 16).
    sextet_step (y mod 16 * 4).
    rewrite Ha, Ha0, Ha1. reflexivity.
  - apply andb_prop in H as [Hx H]. apply andb_prop in H as [Hy H].
    apply andb_prop in H as [Hz H].
    apply andb_prop in Hx as [Hx1 Hx2]. apply andb_prop in Hy as [Hy1 Hy2].
    apply andb_prop in Hz as [Hz1 Hz2].
    apply Z.leb_le in Hx1, Hx2, Hy1, Hy2, Hz1, Hz2.
    sextet_step (x / 4). sextet_step (x mod 4 * 16 + y / 16).
    sextet_step (y mod 16 * 4 + z / 64). sextet_step (z mod 64).
    rewrite Ha, Ha0, Ha1, Ha2, (IH H). reflexivity.
Qed.

(** The decoding loop, started at a group boundary, inverts the
    encoder. *)
Lemma a2b_base64_b64encode (b : bytes) :
  forallb is_byte b = true -> a2b_base64 (b64encode b) 0 0 0 = Ok b.
Proof.
  unfold is_byte, in_range.
  induction b as [|x|x y|x y z l IH] using list_ind3; intros H;
    cbn [forallb] in H; cbn [b64encode].
  - reflexivity.
  - apply andb_prop in H as [Hx _]. apply andb_prop in Hx as [Hx1 Hx2].
    apply Z.leb_le in Hx1, Hx2.
    cbn [a2b_base64].
    sextet_step (x / 4). sextet_step (x mod 4 * 16).
    vm_compute (PAD =? PAD). cbn. do 2 f_equal.
    Z.div_mod_to_equations; lia.
  - apply andb_prop in H as [Hx H]. apply andb_prop in H as [Hy _].
    apply andb_prop in Hx as [Hx1 Hx2]. apply andb_prop in Hy as [Hy1 Hy2].
    apply Z.leb_le in Hx1, Hx2, Hy1, Hy2.
    cbn [a2b_base64].
    sextet_step (x / 4). sextet_step (x mod 4 * 16 + y / 16).
    sextet_step (y mod 16 * 4).
    vm_compute (PAD =? PAD). cbn.
    f_equal. f_equal; [|f_equal]; Z.div_mod_to_equations; lia.
  - apply andb_prop in H as [Hx H]. apply andb_prop in H as [Hy H].
    apply andb_prop in H as [Hz H].
    apply andb_prop in Hx as [Hx1 Hx2]. apply andb_prop in Hy as [Hy1 Hy2].
    apply andb_prop in Hz as [Hz1 Hz2].
    apply Z.leb_le in Hx1, Hx2, Hy1, Hy2, Hz1, Hz2.
    cbn [a2b_base64].
    sextet_step (x / 4). sextet_step (x mod 4 * 16 + y / 16).
    sextet_step (y mod 16 * 4 + z / 64). sextet_step (z mod 64).
    cbn. rewrite (IH H). cbn [bind].
    f_equal. f_equal; [|f_equal; [|f_equal]]; Z.div_mod_to_equations; lia.
Qed.

Lemma a2b_base64_raises (data : bytes) (quad_pos leftchar pads : Z) :
  raises_only (fun e => exn_class e = BinasciiError)
    (a2b_base64 data quad_pos leftchar pads).
Proof.
  revert quad_pos leftchar pads.
  induction data as [|ch rest IH]; intros quad_pos leftchar pads;
    cbn [a2b_base64].
  - destruct (quad_pos =? 0); [exact I|].
    destruct (quad_pos =? 1); reflexivity.
  - repeat match goal with
    | |- raises_only _ (if ?c then _ else _) => destruct c
    | |- raises_only _ (match ?o with Some _ => _ | None => _ end) =>
        destruct o
    | |- raises_only _ (bind _ _) =>
        apply raises_only_bind; [apply IH | intros; exact I]
    | |- raises_only _ (a2b_base64 _ _ _ _) => apply IH
    | |- raises_only _ (Ok _) => exact I
    end.
Qed.

(** Whatever the decoding steps raise derives from [Exception]. *)
Lemma decoding_raises_exceptions (s : str) :
  raises_only (fun e => issubclass (exn_class e) Exception = true)
    (b <- b64decode s ;; utf8_decode b).
Proof.
  apply raises_only_bind.
  - unfold b64decode. destruct (forallb _ s); [|reflexivity].
    pose proof (a2b_base64_raises s 0 0 0) as H.
    destruct (a2b_base64 s 0 0 0) as [b|e]; [exact I|].
    simpl in *. rewrite H. reflexivity.
  - intros b. pose proof (utf8_decode_raises b) as H.
    destruct (utf8_decode b) as [t|e]; [exact I|].
    simpl in *. rewrite H. reflexivity.
Qed.

End Base64Facts.

(** ** Claims about the Base64 codec *)
Section Base64Claims.

(** C1 (decoding rejects characters outside the alphabet), evaluated
    where it breaks.  [decode_base64] calls [pybase64.b64decode] without
    [validate=True], so characters outside the alphabet are dropped
    instead of rejected: ["SGVs-bG8="], which holds a hyphen, and
    ["SGVsbG8="] followed by a line feed both decode to ["Hello"]. *)
Theorem decode_base64_accepts_foreign_characters :
  let s1 := lit "SGVs-bG8=" in
  let s2 := lit "SGVsbG8=" ++ [10] in
  existsb (fun c => negb (is_b64_char c)) s1 = true /\
  decode_base64 s1 = Ok (lit "Hello") /\
  existsb (fun c => negb (is_b64_char c)) s2 = true /\
  decode_base64 s2 = Ok (lit "Hello").
Proof. repeat split; vm_compute; reflexivity. Qed.

(** The specification's own example is rejected, though not for its
    hyphen and at-signs: what is left of it decodes to bytes that are not
    UTF-8. *)
Lemma decode_base64_not_valid_example :
  Pybase64.b64decode (lit "not-valid@@@") = Ok [158; 139; 111; 106; 88; 157] /\
  decode_base64 (lit "not-valid@@@")
  = Raise (ExnFrom ValueError "Invalid Base64 input"
             (Exn UnicodeDecodeError "invalid start byte")).
Proof. split; vm_compute; reflexivity. Qed.

(** C4 (codec round trip).  For every text of Unicode scalar values, that
    is every text UTF-8 can represent, [encode_base64] returns an encoded
    text and [decode_base64] of that text returns the original. *)
Theorem base64_round_trip (x : str) :
  forallb is_scalar x = true ->
  exists e, encode_base64 x = Ok e /\ decode_base64 e = Ok x.
Proof.
  intros Hx.
  destruct (utf8_round_trip x Hx) as (b & Henc & Hb & Hdec).
  pose proof (b64encode_ascii b Hb) as Hascii.
  exists (Pybase64.b64encode b). split.
  - unfold encode_base64. rewrite Henc. cbn [bind].
    apply utf8_decode_ascii. exact Hascii.
  - unfold decode_base64, Pybase64.b64decode.
    replace (forallb (in_range 0 127) (Pybase64.b64encode b)) with true
      by (symmetry; exact Hascii).
    rewrite (a2b_base64_b64encode b Hb). cbn [bind].
    rewrite Hdec. reflexivity.
Qed.

Lemma base64_round_trip_witness :
  forallb is_scalar (lit "Hello Base64! " ++ [0xE9; 0x20AC; 0x1F511]) = true /\
  exists e,
    encode_base64 (lit "Hello Base64! " ++ [0xE9; 0x20AC; 0x1F511]) = Ok e /\
    decode_base64 e = Ok (lit "Hello Base64! " ++ [0xE9; 0x20AC; 0x1F511]).
Proof.
  split; [reflexivity|].
  apply (base64_round_trip (lit "Hello Base64! " ++ [0xE9; 0x20AC; 0x1F511])).
  reflexivity.
Defined.

(** C9 (decode error exclusivity).  For every input text,
    [decode_base64] either returns the decoded text or raises
    [ValueError("Invalid Base64 input")] whose cause is the exception
    the decoding raised; when the Base64 layer succeeds and the bytes are
    not UTF-8, that cause is a [UnicodeDecodeError]. *)
Theorem decode_base64_raises_only_ValueError (s : str) :
  ((exists t, decode_base64 s = Ok t) \/
   (exists exc,
      (b <- Pybase64.b64decode s ;; utf8_decode b) = Raise exc /\
      decode_base64 s = Raise (ExnFrom ValueError "Invalid Base64 input" exc)))
  /\
  match Pybase64.b64decode s with
  | Raise exc =>
      decode_base64 s = Raise (ExnFrom ValueError "Invalid Base64 input" exc)
  | Ok b =>
      match utf8_decode b with
      | Ok t => decode_base64 s = Ok t
      | Raise exc =>
          exn_class exc = UnicodeDecodeError /\
          decode_base64 s
          = Raise (ExnFrom ValueError "Invalid Base64 input" exc)
      end
  end.
Proof.
  pose proof (decoding_raises_exceptions s) as H.
  unfold decode_base64, try_except, raise_from.
  split.
  - destruct (b <- Pybase64.b64decode s ;; utf8_decode b) as [t|e].
    + left. exists t. reflexivity.
    + right. exists e. simpl in H. rewrite H. split; reflexivity.
  - destruct (Pybase64.b64decode s) as [b|e]; cbn [bind] in *.
    + pose proof (utf8_decode_raises b) as Hu.
      destruct (utf8_decode b) as [t|e]; [reflexivity|].
      simpl in H, Hu. rewrite H. split; [exact Hu | reflexivity].
    + simpl in H. rewrite H. reflexivity.
Qed.

End Base64Claims.

(** ** PKCS7 padding *)
Section PaddingClaims.

Lemma forallb_repeat (P : Z -> bool) (x : Z) (n : nat) :
  P x = true -> forallb P (repeat x n) = true.
Proof. intros H. induction n; simpl; [reflexivity | rewrite H; exact IHn]. Qed.

Lemma bytes_eqb_refl (a : bytes) : bytes_eqb a a = true.
Proof. apply bytes_eqb_eq. reflexivity. Qed.

(** C10 (PKCS7 padding round trip).  For every byte string, [pad] returns
    a string whose length is a positive multiple of 16, and [unpad] of it
    returns the original string. *)
Theorem unpad_pad (data : bytes) :
  exists padded,
    pad data = Ok padded /\
    (0 < List.length padded)%nat /\
    Z.of_nat (List.length padded) mod BLOCK_SIZE = 0 /\
    unpad padded = Ok data.
Proof.
  unfold pad, unpad, BLOCK_SIZE, list_repeat.
  set (n := Z.of_nat (List.length data)).
  set (p := 16 - n mod 16).
  assert (Hp : 1 <= p <= 16) by (subst p; pose proof (Z.mod_pos_bound n 16); lia).
  set (k := Z.to_nat p). assert (Hk : (1 <= k <= 16)%nat) by lia.
  assert (Hbytes : bytes_of_list (repeat p k) = Ok (repeat p k)).
  { unfold bytes_of_list. rewrite forallb_repeat; [reflexivity|].
    unfold in_range. apply andb_true_intro. lia. }
  rewrite Hbytes. cbn [bind].
  exists (data ++ repeat p k).
  assert (Hlen : List.length (data ++ repeat p k) = (List.length data + k)%nat)
    by (rewrite length_app, repeat_length; reflexivity).
  split; [reflexivity|]. split; [lia|]. split.
  - rewrite Hlen, Nat2Z.inj_add. fold n. subst k. rewrite Z2Nat.id by lia.
    subst p. replace (n + (16 - n mod 16)) with (n - n mod 16 + 1 * 16) by lia.
    rewrite Z.mod_add by lia. rewrite Zminus_mod_idemp_r.
    rewrite Z.sub_diag. reflexivity.
  - destruct (data ++ repeat p k) as [|h t] eqn:E; [simpl in Hlen; lia|].
    rewrite <- E in Hlen |- *. clear h t E.
    assert (Hkp : Z.of_nat k = p) by lia.
    clearbody k p. clear n.
    assert (Hlast : str_getitem (data ++ repeat p k) (-1) = Ok p).
    { unfold str_getitem. rewrite Hlen. cbn [Z.ltb Z.compare].
      replace ((0 <=? -1 + Z.of_nat (List.length data + k))
               && (-1 + Z.of_nat (List.length data + k)
                   <? Z.of_nat (List.length data + k))) with true
        by (symmetry; apply andb_true_intro;
            split; [apply Z.leb_le | apply Z.ltb_lt]; lia).
      rewrite nth_error_app2 by lia.
      rewrite nth_error_repeat by lia. reflexivity. }
    rewrite Hlast. cbn [bind].
    replace ((p <? 1) || (p >? 16)) with false
      by (symmetry; apply orb_false_intro;
          [apply Z.ltb_ge | rewrite Z.gtb_ltb; apply Z.ltb_ge]; lia).
    replace (Z.to_nat p) with k by lia.
    rewrite Hbytes. cbn [bind].
    assert (Hb : slice_bound (Z.of_nat (List.length (data ++ repeat p k))) (- p)
                 = List.length data).
    { unfold slice_bound. rewrite Hlen.
      replace (- p <? 0) with true by (symmetry; apply Z.ltb_lt; lia). lia. }
    unfold slice_from, slice_to. rewrite Hb.
    rewrite skipn_app, Nat.sub_diag, skipn_all. cbn [skipn app].
    rewrite bytes_eqb_refl. cbn [negb].
    rewrite firstn_app, Nat.sub_diag, firstn_all. cbn [firstn].
    rewrite app_nil_r. reflexivity.
Qed.

End PaddingClaims.

(** ** More about the Caesar cipher *)
Section CaesarMore.

Lemma has_kelvin_In (x : str) : has_kelvin x = true <-> In KELVIN x.
Proof.
  unfold has_kelvin. rewrite existsb_exists. split.
  - intros (c & Hin & Hc). apply Z.eqb_eq in Hc. subst c. exact Hin.
  - intros Hin. exists KELVIN. split; [exact Hin | apply Z.eqb_refl].
Qed.

Lemma has_kelvin_false (x : str) : has_kelvin x = false -> ~ In KELVIN x.
Proof.
  intros H Hin. apply has_kelvin_In in Hin. congruence.
Qed.

Lemma join_map_shift_char_cases (k : Z) (x : str) :
  join_map (fun ch => _shift_char ch k) x
  = if has_kelvin x then raise ValueError "substring not found"
    else Ok (map (rot_char k) x).
Proof.
  destruct (has_kelvin x) eqn:E.
  - apply join_map_shift_char_kelvin, has_kelvin_In, E.
  - apply join_map_shift_char, has_kelvin_false, E.
Qed.

Lemma rot_char_letter (k c : Z) :
  is_upper_letter (rot_char k c) = is_upper_letter c /\
  is_lower_letter (rot_char k c) = is_lower_letter c.
Proof.
  unfold rot_char.
  destruct (is_upper_letter c) eqn:EU; [|destruct (is_lower_letter c) eqn:EL].
  - unfold is_upper_letter, is_lower_letter, in_range in *.
    pose proof (Z.mod_pos_bound (c - 65 + k) 26).
    split.
    + apply andb_true_intro. split; [apply Z.leb_le | apply Z.leb_le]; lia.
    + apply andb_prop in EU as [E1 E2]. apply Z.leb_le in E1, E2.
      transitivity false; [|symmetry]; apply andb_false_intro1, Z.leb_gt; lia.
  - unfold is_upper_letter, is_lower_letter, in_range in *.
    pose proof (Z.mod_pos_bound (c - 97 + k) 26).
    split.
    + apply andb_false_intro2, Z.leb_gt. lia.
    + apply andb_true_intro. split; [apply Z.leb_le | apply Z.leb_le]; lia.
  - rewrite EU, EL. split; reflexivity.
Qed.

Lemma rot_char_compose (a b c : Z) :
  rot_char b (rot_char a c) = rot_char (a + b) c.
Proof.
  destruct (rot_char_letter a c) as [HU HL].
  unfold rot_char at 1. rewrite HU, HL. unfold rot_char.
  destruct (is_upper_letter c); [|destruct (is_lower_letter c)].
  - f_equal.
    replace (65 + (c - 65 + a) mod 26 - 65 + b) with ((c - 65 + a) mod 26 + b) by lia.
    rewrite Z.add_mod_idemp_l by lia. f_equal. lia.
  - f_equal.
    replace (97 + (c - 97 + a) mod 26 - 97 + b) with ((c - 97 + a) mod 26 + b) by lia.
    rewrite Z.add_mod_idemp_l by lia. f_equal. lia.
  - reflexivity.
Qed.

Lemma rot_char_mod (k c : Z) : rot_char (k mod 26) c = rot_char k c.
Proof.
  unfold rot_char. rewrite !Z.add_mod_idemp_r by lia. reflexivity.
Qed.

Lemma rot_char_multiple (k c : Z) : rot_char (26 * k) c = c.
Proof.
  unfold rot_char.
  destruct (is_upper_letter c) eqn:EU; [|destruct (is_lower_letter c) eqn:EL].
  - unfold is_upper_letter, in_range in EU.
    apply andb_prop in EU as [E1 E2]. apply Z.leb_le in E1, E2.
    replace (c - 65 + 26 * k) with (c - 65 + k * 26) by lia.
    rewrite Z.mod_add by lia. rewrite Z.mod_small by lia. lia.
  - unfold is_lower_letter, in_range in EL.
    apply andb_prop in EL as [E1 E2]. apply Z.leb_le in E1, E2.
    replace (c - 97 + 26 * k) with (c - 97 + k * 26) by lia.
    rewrite Z.mod_add by lia. rewrite Z.mod_small by lia. lia.
  - reflexivity.
Qed.

Lemma has_kelvin_map_rot (k : Z) (x : str) :
  has_kelvin (map (rot_char k) x) = has_kelvin x.
Proof.
  unfold has_kelvin. induction x as [|c x IH]; [reflexivity|].
  cbn [map existsb]. rewrite IH. f_equal.
  destruct (Z.eqb_spec KELVIN c) as [<-|Hne].
  - vm_compute. reflexivity.
  - apply Z.eqb_neq. intros H. symmetry in H. revert H.
    apply rot_char_not_kelvin. congruence.
Qed.

Lemma map_fix (f : Z -> Z) (x : str) :
  (forall c, f c = c) -> map f x = x.
Proof.
  intros H. rewrite <- (map_id x) at 2. apply map_ext. exact H.
Qed.

Lemma encrypt_caesar_cases (x : str) (s : Z) :
  encrypt_caesar x s
  = if has_kelvin x then raise ValueError "substring not found"
    else Ok (map (rot_char (s mod 26)) x).
Proof. apply join_map_shift_char_cases. Qed.

Lemma decrypt_caesar_cases (x : str) (s : Z) :
  decrypt_caesar x s
  = if has_kelvin x then raise ValueError "substring not found"
    else Ok (map (rot_char (- (s mod 26))) x).
Proof. apply join_map_shift_char_cases. Qed.

Lemma decrypt_encrypt_caesar (x y : str) (s : Z) :
  encrypt_caesar x s = Ok y -> decrypt_caesar y s = Ok x.
Proof.
  rewrite encrypt_caesar_cases, decrypt_caesar_cases.
  destruct (has_kelvin x) eqn:Hk; [discriminate|].
  intros [= <-]. rewrite has_kelvin_map_rot, Hk, map_map.
  f_equal. apply map_fix. intros c. rewrite rot_char_compose.
  replace (s mod 26 + - (s mod 26)) with (26 * 0) by lia.
  apply rot_char_multiple.
Qed.

Lemma encrypt_decrypt_caesar (x y : str) (s : Z) :
  decrypt_caesar x s = Ok y -> encrypt_caesar y s = Ok x.
Proof.
  rewrite encrypt_caesar_cases, decrypt_caesar_cases.
  destruct (has_kelvin x) eqn:Hk; [discriminate|].
  intros [= <-]. rewrite has_kelvin_map_rot, Hk, map_map.
  f_equal. apply map_fix. intros c. rewrite rot_char_compose.
  replace (- (s mod 26) + s mod 26) with (26 * 0) by lia.
  apply rot_char_multiple.
Qed.

(** X1.  [encrypt_caesar] and [decrypt_caesar] in closed form.  Both
    raise [ValueError("substring not found")] exactly on the texts that
    hold a Kelvin sign; on every other text they return the text with each
    letter of A-Z and a-z rotated inside its case, forward respectively
    backward by the shift modulo 26, and every other character as it
    is. *)
Theorem caesar_closed_form (x : str) (s : Z) :
  encrypt_caesar x s
  = (if has_kelvin x then raise ValueError "substring not found"
     else Ok (map (rot_char (s mod 26)) x)) /\
  decrypt_caesar x s
  = (if has_kelvin x then raise ValueError "substring not found"
     else Ok (map (rot_char (- (s mod 26))) x)).
Proof.
  split; [apply encrypt_caesar_cases | apply decrypt_caesar_cases].
Qed.

(** X2.  On a text without a Kelvin sign the two operations undo each
    other in both orders, for every integer shift. *)
Theorem caesar_round_trips (x : str) (s : Z) :
  has_kelvin x = false ->
  (c <- encrypt_caesar x s ;; decrypt_caesar c s) = Ok x /\
  (c <- decrypt_caesar x s ;; encrypt_caesar c s) = Ok x.
Proof.
  intros Hk. split.
  - destruct (encrypt_caesar x s) as [y|e] eqn:E.
    + cbn [bind]. apply (decrypt_encrypt_caesar _ _ _ E).
    + rewrite encrypt_caesar_cases, Hk in E. discriminate.
  - destruct (decrypt_caesar x s) as [y|e] eqn:E.
    + cbn [bind]. apply (encrypt_decrypt_caesar _ _ _ E).
    + rewrite decrypt_caesar_cases, Hk in E. discriminate.
Qed.

Lemma caesar_round_trips_witness :
  has_kelvin (lit "Veni, vidi, vici!") = false /\
  (c <- encrypt_caesar (lit "Veni, vidi, vici!") (-29) ;; decrypt_caesar c (-29))
  = Ok (lit "Veni, vidi, vici!") /\
  (c <- decrypt_caesar (lit "Veni, vidi, vici!") (-29) ;; encrypt_caesar c (-29))
  = Ok (lit "Veni, vidi, vici!").
Proof.
  split; [reflexivity|].
  apply (caesar_round_trips (lit "Veni, vidi, vici!") (-29)). reflexivity.
Defined.

(** X3.  Shifts add up: encrypting with [a] and the result with [b] has
    the outcome of encrypting once with [a + b], and likewise for
    decrypting; in particular the order of two encryptions does not
    matter. *)
Theorem caesar_shifts_add (x : str) (a b : Z) :
  (c <- encrypt_caesar x a ;; encrypt_caesar c b) = encrypt_caesar x (a + b) /\
  (c <- decrypt_caesar x a ;; decrypt_caesar c b) = decrypt_caesar x (a + b) /\
  (c <- encrypt_caesar x a ;; encrypt_caesar c b)
  = (c <- encrypt_caesar x b ;; encrypt_caesar c a).
Proof.
  assert (E : forall a b,
    (c <- encrypt_caesar x a ;; encrypt_caesar c b) = encrypt_caesar x (a + b)).
  { intros a' b'. unfold encrypt_caesar.
    rewrite !join_map_shift_char_cases.
    destruct (has_kelvin x) eqn:Hk; [reflexivity|]. cbn [bind].
    rewrite join_map_shift_char_cases, has_kelvin_map_rot, Hk.
    f_equal. rewrite map_map. apply map_ext. intros c.
    rewrite rot_char_compose, <- (rot_char_mod (a' mod 26 + b' mod 26)).
    rewrite <- Z.add_mod by lia. reflexivity. }
  split; [apply E|]. split.
  - unfold decrypt_caesar.
    rewrite !join_map_shift_char_cases.
    destruct (has_kelvin x) eqn:Hk; [reflexivity|]. cbn [bind].
    rewrite join_map_shift_char_cases, has_kelvin_map_rot, Hk.
    f_equal. rewrite map_map. apply map_ext. intros c.
    rewrite rot_char_compose.
    rewrite <- (rot_char_mod (- (a mod 26) + - (b mod 26))).
    rewrite <- (rot_char_mod (- ((a + b) mod 26))).
    f_equal.
    replace (- (a mod 26) + - (b mod 26))
      with (- (a + b) + (a / 26 + b / 26) * 26)
      by (pose proof (Z.div_mod a 26); pose proof (Z.div_mod b 26); lia).
    replace (- ((a + b) mod 26)) with (- (a + b) + ((a + b) / 26) * 26)
      by (pose proof (Z.div_mod (a + b) 26); lia).
    rewrite !Z.mod_add by lia. reflexivity.
  - rewrite !E. f_equal. lia.
Qed.

(** X4.  Case is preserved: whenever [encrypt_caesar] or [decrypt_caesar]
    returns, the output has the length of the input, and at every position
    it holds an upper-case letter where the input does, a lower-case
    letter where the input does, and the input's own character where that
    is no letter. *)
Theorem caesar_preserves_case (x y : str) (s : Z) :
  encrypt_caesar x s = Ok y \/ decrypt_caesar x s = Ok y ->
  List.length y = List.length x /\
  forall i c, nth_error x i = Some c ->
    exists d, nth_error y i = Some d /\
      is_upper_letter d = is_upper_letter c /\
      is_lower_letter d = is_lower_letter c /\
      (is_letter c = false -> d = c).
Proof.
  intros H.
  assert (Hy : exists k, y = map (rot_char k) x).
  { destruct H as [H|H];
      [rewrite encrypt_caesar_cases in H | rewrite decrypt_caesar_cases in H];
      destruct (has_kelvin x); try discriminate;
      injection H as <-; eauto. }
  destruct Hy as [k ->]. split; [apply length_map|].
  intros i c Hi. exists (rot_char k c).
  rewrite nth_error_map, Hi. split; [reflexivity|].
  destruct (rot_char_letter k c) as [HU HL].
  split; [exact HU|]. split; [exact HL|].
  unfold is_letter. intros Hl. apply orb_false_elim in Hl as [H1 H2].
  unfold rot_char. rewrite H1, H2. reflexivity.
Qed.

Lemma caesar_preserves_case_witness :
  (encrypt_caesar (lit "Hello, World!") 3 = Ok (lit "Khoor, Zruog!") \/
   decrypt_caesar (lit "Hello, World!") 3 = Ok (lit "Khoor, Zruog!")) /\
  List.length (lit "Khoor, Zruog!") = List.length (lit "Hello, World!") /\
  forall i c, nth_error (lit "Hello, World!") i = Some c ->
    exists d, nth_error (lit "Khoor, Zruog!") i = Some d /\
      is_upper_letter d = is_upper_letter c /\
      is_lower_letter d = is_lower_letter c /\
      (is_letter c = false -> d = c).
Proof.
  split; [left; vm_compute; reflexivity|].
  apply (caesar_preserves_case (lit "Hello, World!") (lit "Khoor, Zruog!") 3).
  left. vm_compute. reflexivity.
Defined.

(** X5.  A shift that is a multiple of 26 changes nothing: on a text
    without a Kelvin sign both operations return the text itself. *)
Theorem caesar_multiple_of_26_is_identity (x : str) (k : Z) :
  has_kelvin x = false ->
  encrypt_caesar x (26 * k) = Ok x /\ decrypt_caesar x (26 * k) = Ok x.
Proof.
  intros Hk. rewrite encrypt_caesar_cases, decrypt_caesar_cases, Hk.
  replace ((26 * k) mod 26) with 0
    by (symmetry; rewrite Z.mul_comm; apply Z.mod_mul; lia).
  split; f_equal; apply map_fix; intros c;
    apply (rot_char_multiple 0 c).
Qed.

Lemma caesar_multiple_of_26_is_identity_witness :
  has_kelvin (lit "Hello, World!") = false /\
  encrypt_caesar (lit "Hello, World!") (26 * (-4)) = Ok (lit "Hello, World!") /\
  decrypt_caesar (lit "Hello, World!") (26 * (-4)) = Ok (lit "Hello, World!").
Proof.
  split; [reflexivity|].
  apply (caesar_multiple_of_26_is_identity (lit "Hello, World!") (-4)).
  reflexivity.
Defined.

(** X6.  For a fixed shift, encryption loses nothing: two texts with the
    same ciphertext are the same text. *)
Theorem encrypt_caesar_injective (x x' y : str) (s : Z) :
  encrypt_caesar x s = Ok y -> encrypt_caesar x' s = Ok y -> x = x'.
Proof.
  intros H H'.
  pose proof (decrypt_encrypt_caesar _ _ _ H) as E.
  pose proof (decrypt_encrypt_caesar _ _ _ H') as E'.
  congruence.
Qed.

Lemma encrypt_caesar_injective_witness :
  encrypt_caesar (lit "abc") 2 = Ok (lit "cde") /\ lit "abc" = lit "abc".
Proof.
  split; [vm_compute; reflexivity|].
  apply (encrypt_caesar_injective (lit "abc") (lit "abc") (lit "cde") 2);
    vm_compute; reflexivity.
Defined.

End CaesarMore.

(** ** More about the Base64 codec *)
Section Base64More.

Import Pybase64.

Lemma sextets_in_alphabet :
  forallb (fun v => is_b64_char (b2a v)) (zrange 0 64) = true.
Proof. vm_compute. reflexivity. Qed.

Lemma b2a_is_b64_char (v : Z) : 0 <= v < 64 -> is_b64_char (b2a v) = true.
Proof.
  intros Hv. apply (forallb_zrange _ _ _ sextets_in_alphabet). simpl. lia.
Qed.

Ltac byte_bounds :=
  repeat match goal with
  | H : (_ && _) = true |- _ => apply andb_prop in H as [? ?]
  | H : is_byte _ = true |- _ => unfold is_byte, in_range in H
  | H : (_ <=? _) = true |- _ => apply Z.leb_le in H
  end.

Ltac sextet_range := Z.div_mod_to_equations; lia.

(** The encoder's output: symbols of the alphabet and [=] only, four for
    every three bytes started. *)
Lemma b64encode_shape (b : bytes) :
  forallb is_byte b = true ->
  forallb is_b64_char (b64encode b) = true /\
  Z.of_nat (List.length (b64encode b))
  = 4 * ((Z.of_nat (List.length b) + 2) / 3).
Proof.
  induction b as [|x|x y|x y z l IH] using list_ind3; intros H;
    cbn [forallb] in H; cbn [b64encode forallb].
  - split; reflexivity.
  - byte_bounds. rewrite !b2a_is_b64_char by sextet_range.
    split; reflexivity.
  - byte_bounds. rewrite !b2a_is_b64_char by sextet_range.
    split; reflexivity.
  - apply andb_prop in H as [Hx H]. apply andb_prop in H as [Hy H].
    apply andb_prop in H as [Hz H]. byte_bounds.
    destruct (IH H) as [IH1 IH2].
    rewrite !b2a_is_b64_char by sextet_range. rewrite IH1.
    split; [reflexivity|].
    cbn [List.length]. rewrite !Nat2Z.inj_succ, IH2.
    Z.div_mod_to_equations. lia.
Qed.

(** Encoding then decoding, through the shared lemmas. *)
Lemma decode_encode_base64 (x e : str) :
  forallb is_scalar x = true -> encode_base64 x = Ok e ->
  decode_base64 e = Ok x /\
  exists b, utf8_encode x = Ok b /\ forallb is_byte b = true /\
            e = b64encode b.
Proof.
  intros Hx He.
  destruct (utf8_round_trip x Hx) as (b & Henc & Hb & Hdec).
  pose proof (b64encode_ascii b Hb) as Hascii.
  unfold encode_base64 in He. rewrite Henc in He. cbn [bind] in He.
  rewrite (utf8_decode_ascii _ Hascii) in He. injection He as <-.
  split; [|exists b; repeat split; assumption].
  unfold decode_base64, b64decode.
  replace (forallb (in_range 0 127) (b64encode b)) with true
    by (symmetry; exact Hascii).
  rewrite (a2b_base64_b64encode b Hb). cbn [bind].
  rewrite Hdec. reflexivity.
Qed.

(** X7.  The shape of an encoding.  For a text of scalar values,
    [encode_base64] returns a text made of the 64 symbols of the alphabet
    and [=] only, four characters for every three UTF-8 bytes started, so
    that its length is a multiple of four. *)
Theorem encode_base64_shape (x : str) :
  forallb is_scalar x = true ->
  exists b e,
    utf8_encode x = Ok b /\ encode_base64 x = Ok e /\
    forallb is_b64_char e = true /\
    Z.of_nat (List.length e) = 4 * ((Z.of_nat (List.length b) + 2) / 3) /\
    Z.of_nat (List.length e) mod 4 = 0.
Proof.
  intros Hx.
  destruct (utf8_round_trip x Hx) as (b & Henc & Hb & Hdec).
  destruct (b64encode_shape b Hb) as [Hal Hlen].
  exists b, (b64encode b). split; [exact Henc|]. split.
  - unfold encode_base64. rewrite Henc. cbn [bind].
    apply utf8_decode_ascii, b64encode_ascii, Hb.
  - split; [exact Hal|]. split; [exact Hlen|].
    rewrite Hlen, Z.mul_comm. apply Z.mod_mul. lia.
Qed.

Lemma encode_base64_shape_witness :
  forallb is_scalar (lit "Hello") = true /\
  exists b e,
    utf8_encode (lit "Hello") = Ok b /\ encode_base64 (lit "Hello") = Ok e /\
    forallb is_b64_char e = true /\
    Z.of_nat (List.length e) = 4 * ((Z.of_nat (List.length b) + 2) / 3) /\
    Z.of_nat (List.length e) mod 4 = 0.
Proof.
  split; [reflexivity|].
  apply (encode_base64_shape (lit "Hello")). reflexivity.
Defined.

Lemma utf8_encode_surrogate (x : str) :
  existsb is_surrogate x = true ->
  utf8_encode x = raise UnicodeEncodeError "surrogates not allowed".
Proof.
  induction x as [|c x IH]; [discriminate|].
  cbn [existsb utf8_encode]. intros H.
  destruct (is_surrogate c) eqn:Ec.
  - unfold utf8_encode_char. rewrite Ec.
    unfold is_surrogate in Ec. apply andb_prop in Ec as [E1 E2].
    apply Z.leb_le in E1, E2.
    replace (c <? 128) with false by (symmetry; apply Z.ltb_ge; lia).
    replace (c <? 2048) with false by (symmetry; apply Z.ltb_ge; lia).
    replace (c <? 65536) with true by (symmetry; apply Z.ltb_lt; lia).
    reflexivity.
  - simpl in H. rewrite (IH H).
    unfold utf8_encode_char. rewrite Ec.
    destruct (c <? 128); [reflexivity|].
    destruct (c <? 2048); [reflexivity|].
    destruct (c <? 65536); reflexivity.
Qed.

(** X8.  [encode_base64] has no handler of its own: on a text that holds
    a surrogate code point it raises the [UnicodeEncodeError] of the UTF-8
    step, unwrapped. *)
Theorem encode_base64_surrogate_raises (x : str) :
  existsb is_surrogate x = true ->
  encode_base64 x = raise UnicodeEncodeError "surrogates not allowed".
Proof.
  intros H. unfold encode_base64. rewrite (utf8_encode_surrogate x H).
  reflexivity.
Qed.

Lemma encode_base64_surrogate_raises_witness :
  existsb is_surrogate (lit "ab" ++ [0xD83D]) = true /\
  encode_base64 (lit "ab" ++ [0xD83D])
  = raise UnicodeEncodeError "surrogates not allowed".
Proof.
  split; [reflexivity|].
  apply (encode_base64_surrogate_raises (lit "ab" ++ [0xD83D])). reflexivity.
Defined.


Lemma forallb_filter (P Q : Z -> bool) (l : list Z) :
  forallb P l = true -> forallb P (filter Q l) = true.
Proof.
  induction l as [|a l IH]; [reflexivity|].
  cbn [forallb filter]. intros H. apply andb_prop in H as [Ha Hl].
  destruct (Q a); [cbn [forallb]; rewrite Ha|]; auto.
Qed.


(** X10.  Encoding loses nothing: two texts of scalar values with the same
    encoding are the same text. *)
Theorem encode_base64_injective (x y e : str) :
  forallb is_scalar x = true -> forallb is_scalar y = true ->
  encode_base64 x = Ok e -> encode_base64 y = Ok e -> x = y.
Proof.
  intros Hx Hy Ex Ey.
  destruct (decode_encode_base64 x e Hx Ex) as [Dx _].
  destruct (decode_encode_base64 y e Hy Ey) as [Dy _].
  congruence.
Qed.

Lemma encode_base64_injective_witness :
  forallb is_scalar (lit "Hello") = true /\
  encode_base64 (lit "Hello") = Ok (lit "SGVsbG8=") /\
  lit "Hello" = lit "Hello".
Proof.
  split; [reflexivity|]. split; [vm_compute; reflexivity|].
  apply (encode_base64_injective (lit "Hello") (lit "Hello") (lit "SGVsbG8="));
    vm_compute; reflexivity.
Defined.

Lemma sextet_nonpad (v : Z) :
  0 <= v < 64 -> is_pad (b2a v) = false /\ a2b (b2a v) = Some v.
Proof.
  intros Hv. destruct (sextet v Hv) as (_ & Hp & Ha). split; assumption.
Qed.

Ltac sextet_facts v :=
  let Hp := fresh "Hp" in let Ha := fresh "Ha" in
  destruct (sextet_nonpad v) as [Hp Ha]; [sextet_range|].

(** An encoding stripped of its padding is rejected. *)
Lemma a2b_base64_stripped (b : bytes) :
  forallb is_byte b = true ->
  existsb is_pad (b64encode b) = true ->
  a2b_base64 (filter (fun c => negb (is_pad c)) (b64encode b)) 0 0 0
  = raise BinasciiError "Incorrect padding".
Proof.
  induction b as [|x|x y|x y z l IH] using list_ind3; intros H Hpad;
    cbn [forallb] in H; cbn [b64encode] in *.
  - discriminate.
  - byte_bounds.
    sextet_facts (x / 4). sextet_facts (x mod 4 * 16).
    cbn [filter]. rewrite Hp, Hp0. cbn [negb].
    replace (is_pad PAD) with true by reflexivity. cbn [negb].
    cbn [a2b_base64]. unfold is_pad in Hp, Hp0. rewrite Hp, Hp0, Ha, Ha0.
    reflexivity.
  - byte_bounds.
    sextet_facts (x / 4). sextet_facts (x mod 4 * 16 + y / 16).
    sextet_facts (y mod 16 * 4).
    cbn [filter]. rewrite Hp, Hp0, Hp1. cbn [negb].
    replace (is_pad PAD) with true by reflexivity. cbn [negb].
    cbn [a2b_base64]. unfold is_pad in Hp, Hp0, Hp1.
    rewrite Hp, Hp0, Hp1, Ha, Ha0, Ha1. reflexivity.
  - apply andb_prop in H as [Hx H]. apply andb_prop in H as [Hy H].
    apply andb_prop in H as [Hz H]. byte_bounds.
    sextet_facts (x / 4). sextet_facts (x mod 4 * 16 + y / 16).
    sextet_facts (y mod 16 * 4 + z / 64). sextet_facts (z mod 64).
    cbn [existsb] in Hpad. rewrite Hp, Hp0, Hp1, Hp2 in Hpad.
    cbn [orb] in Hpad.
    cbn [filter]. rewrite Hp, Hp0, Hp1, Hp2. cbn [negb].
    cbn [a2b_base64]. unfold is_pad in Hp, Hp0, Hp1, Hp2.
    rewrite Hp, Hp0, Hp1, Hp2, Ha, Ha0, Ha1, Ha2.
    cbn. rewrite (IH H Hpad). reflexivity.
Qed.

(** X11.  Padding is required.  When the encoding of a text ends in [=],
    the same encoding without its padding is rejected with
    [ValueError("Invalid Base64 input")], caused by the codec's
    "Incorrect padding". *)
Theorem decode_base64_missing_padding (x e : str) :
  forallb is_scalar x = true ->
  encode_base64 x = Ok e ->
  existsb is_pad e = true ->
  decode_base64 (filter (fun c => negb (is_pad c)) e)
  = Raise (ExnFrom ValueError "Invalid Base64 input"
             (Exn BinasciiError "Incorrect padding")).
Proof.
  intros Hx He Hpad.
  destruct (decode_encode_base64 x e Hx He) as (_ & b & _ & Hb & ->).
  unfold decode_base64, b64decode.
  change (forallb (in_range 0 127)) with (forallb is_ascii).
  rewrite (forallb_filter _ _ _ (b64encode_ascii b Hb)).
  rewrite (a2b_base64_stripped b Hb Hpad). reflexivity.
Qed.

Lemma decode_base64_missing_padding_witness :
  forallb is_scalar (lit "Hello") = true /\
  encode_base64 (lit "Hello") = Ok (lit "SGVsbG8=") /\
  existsb is_pad (lit "SGVsbG8=") = true /\
  decode_base64 (filter (fun c => negb (is_pad c)) (lit "SGVsbG8="))
  = Raise (ExnFrom ValueError "Invalid Base64 input"
             (Exn BinasciiError "Incorrect padding")).
Proof.
  split; [reflexivity|]. split; [vm_compute; reflexivity|].
  split; [reflexivity|].
  apply (decode_base64_missing_padding (lit "Hello") (lit "SGVsbG8="));
    vm_compute; reflexivity.
Defined.

End Base64More.

(** ** More about PKCS7 padding *)
Section PaddingMore.

Lemma repeat_bytes (p : Z) (k : nat) :
  0 <= p <= 255 -> bytes_of_list (repeat p k) = Ok (repeat p k).
Proof.
  intros Hp. unfold bytes_of_list.
  rewrite forallb_repeat; [reflexivity|].
  unfold in_range. apply andb_true_intro.
  split; apply Z.leb_le; lia.
Qed.

Lemma getitem_last (data : bytes) (c : Z) :
  str_getitem (data ++ [c]) (-1) = Ok c.
Proof.
  unfold str_getitem. rewrite length_app. cbn [List.length Z.ltb Z.compare].
  replace ((0 <=? -1 + Z.of_nat (List.length data + 1))
           && (-1 + Z.of_nat (List.length data + 1)
               <? Z.of_nat (List.length data + 1))) with true
    by (symmetry; apply andb_true_intro;
        split; [apply Z.leb_le | apply Z.ltb_lt]; lia).
  rewrite nth_error_app2 by lia.
  replace (Z.to_nat (-1 + Z.of_nat (List.length data + 1)) - List.length data)%nat
    with 0%nat by lia.
  reflexivity.
Qed.

Lemma getitem_nonempty (data : bytes) :
  data <> [] -> exists front c, data = front ++ [c] /\ str_getitem data (-1) = Ok c.
Proof.
  intros Hne. destruct (exists_last Hne) as (front & c & ->).
  exists front, c. split; [reflexivity | apply getitem_last].
Qed.

(** The result of [unpad], in terms of the last byte [p] of the data. *)
Lemma unpad_cases (data front : bytes) (p : Z) :
  data = front ++ [p] ->
  unpad data
  = if (p <? 1) || (p >? 16) then raise ValueError "Invalid padding length"
    else if negb (bytes_eqb (slice_from data (- p)) (repeat p (Z.to_nat p)))
    then raise ValueError "Invalid PKCS7 padding bytes"
    else Ok (slice_to data (- p)).
Proof.
  intros ->. unfold unpad.
  destruct (front ++ [p]) as [|h t] eqn:Ed;
    [destruct front; discriminate|].
  rewrite <- Ed, getitem_last. cbn [bind]. unfold BLOCK_SIZE.
  destruct ((p <? 1) || (p >? 16)) eqn:Er; [reflexivity|].
  apply orb_false_elim in Er as [E1 E2].
  apply Z.ltb_ge in E1. rewrite Z.gtb_ltb in E2. apply Z.ltb_ge in E2.
  unfold list_repeat. rewrite repeat_bytes by lia. reflexivity.
Qed.

Lemma slices_of_padded (r : bytes) (p : Z) :
  1 <= p ->
  slice_from (r ++ repeat p (Z.to_nat p)) (- p) = repeat p (Z.to_nat p) /\
  slice_to (r ++ repeat p (Z.to_nat p)) (- p) = r.
Proof.
  intros Hp. unfold slice_from, slice_to.
  assert (Hb : slice_bound
                 (Z.of_nat (List.length (r ++ repeat p (Z.to_nat p)))) (- p)
               = List.length r).
  { unfold slice_bound. rewrite length_app, repeat_length.
    replace (- p <? 0) with true by (symmetry; apply Z.ltb_lt; lia). lia. }
  rewrite Hb. split.
  - rewrite skipn_app, Nat.sub_diag, skipn_all. reflexivity.
  - rewrite firstn_app, Nat.sub_diag, firstn_all. cbn [firstn].
    apply app_nil_r.
Qed.

Lemma unpad_padded (r : bytes) (p : Z) :
  1 <= p <= 16 -> unpad (r ++ repeat p (Z.to_nat p)) = Ok r.
Proof.
  intros Hp.
  assert (Hk : Z.to_nat p = S (Z.to_nat p - 1)) by lia.
  assert (E : r ++ repeat p (Z.to_nat p)
              = (r ++ repeat p (Z.to_nat p - 1)) ++ [p]).
  { rewrite <- app_assoc. f_equal. rewrite Hk at 1.
    rewrite <- repeat_cons. reflexivity. }
  rewrite (unpad_cases _ _ _ E).
  replace ((p <? 1) || (p >? 16)) with false
    by (symmetry; apply orb_false_intro;
        [apply Z.ltb_ge | rewrite Z.gtb_ltb; apply Z.ltb_ge]; lia).
  destruct (slices_of_padded r p) as [Hf Ht]; [lia|].
  rewrite Hf, Ht, bytes_eqb_refl. reflexivity.
Qed.

Lemma unpad_inv (data r : bytes) :
  unpad data = Ok r ->
  exists p, 1 <= p <= 16 /\ data = r ++ repeat p (Z.to_nat p).
Proof.
  intros H.
  destruct data as [|h t]; [discriminate|].
  remember (h :: t) as data eqn:Ed.
  assert (Hne : data <> []) by (rewrite Ed; discriminate).
  clear h t Ed.
  destruct (getitem_nonempty data Hne) as (front & p & E & _).
  rewrite (unpad_cases data front p E) in H.
  destruct ((p <? 1) || (p >? 16)) eqn:Er; [discriminate|].
  apply orb_false_elim in Er as [E1 E2].
  apply Z.ltb_ge in E1. rewrite Z.gtb_ltb in E2. apply Z.ltb_ge in E2.
  destruct (bytes_eqb (slice_from data (- p)) (repeat p (Z.to_nat p))) eqn:Eb;
    [|discriminate].
  cbn [negb] in H. injection H as <-.
  apply bytes_eqb_eq in Eb.
  exists p. split; [lia|].
  unfold slice_from, slice_to in *. rewrite <- Eb.
  symmetry. apply firstn_skipn.
Qed.

(** X12.  [unpad] returns exactly on the data that end in a run of [p]
    bytes of value [p], for some [p] from 1 to 16, and then returns what
    stands before that run.  The length of the data plays no part: it
    need not be a multiple of the block size. *)
Theorem unpad_returns_iff (data r : bytes) :
  unpad data = Ok r <->
  exists p, 1 <= p <= 16 /\ data = r ++ repeat p (Z.to_nat p).
Proof.
  split.
  - apply unpad_inv.
  - intros (p & Hp & ->). apply unpad_padded. exact Hp.
Qed.

(** X13.  Every failure of [unpad] is a [ValueError]: on empty data, on a
    last byte outside 1..16, and on a last byte larger than the data or
    not repeated; the index and the slices it takes never raise. *)
Theorem unpad_raises_only_ValueError (data : bytes) :
  raises_only (fun e => exn_class e = ValueError) (unpad data) /\
  unpad [] = raise ValueError "Cannot unpad empty data".
Proof.
  split; [|reflexivity].
  destruct data as [|h t]; [reflexivity|].
  remember (h :: t) as data eqn:Ed.
  assert (Hne : data <> []) by (rewrite Ed; discriminate).
  clear h t Ed.
  destruct (getitem_nonempty data Hne) as (front & p & E & _).
  rewrite (unpad_cases data front p E).
  destruct ((p <? 1) || (p >? 16)); [reflexivity|].
  destruct (negb _); [reflexivity | exact I].
Qed.

(** X14.  [pad] appends between 1 and 16 bytes, each equal to their
    number, and reaches the next multiple of 16 strictly above the length
    of the data: data whose length is already a multiple of 16 gain a
    whole block. *)
Theorem pad_appends (data : bytes) :
  let n := Z.of_nat (List.length data) in
  let p := 16 * (n / 16 + 1) - n in
  1 <= p <= 16 /\
  pad data = Ok (data ++ repeat p (Z.to_nat p)) /\
  (n mod 16 = 0 -> p = 16).
Proof.
  intros n p.
  assert (Hp : p = 16 - n mod 16)
    by (subst p; pose proof (Z.div_mod n 16); lia).
  pose proof (Z.mod_pos_bound n 16) as Hm.
  split; [lia|]. split; [|lia].
  unfold pad, BLOCK_SIZE, list_repeat. fold n. rewrite <- Hp.
  rewrite repeat_bytes by lia. reflexivity.
Qed.

(** X15.  On block-aligned data [pad] undoes [unpad]: if [unpad] returns
    on data whose length is a multiple of 16, padding the result gives
    the data back. *)
Theorem pad_unpad (data r : bytes) :
  unpad data = Ok r ->
  Z.of_nat (List.length data) mod 16 = 0 ->
  pad r = Ok data.
Proof.
  intros H Hal. apply unpad_inv in H as (p & Hp & ->).
  rewrite length_app, repeat_length, Nat2Z.inj_add, Z2Nat.id in Hal by lia.
  unfold pad, BLOCK_SIZE, list_repeat.
  replace (16 - Z.of_nat (List.length r) mod 16) with p
    by (Z.div_mod_to_equations; lia).
  rewrite repeat_bytes by lia. reflexivity.
Qed.

Lemma pad_unpad_witness :
  unpad (lit "YELLOW SUBMARINE" ++ repeat 16 16) = Ok (lit "YELLOW SUBMARINE") /\
  Z.of_nat (List.length (lit "YELLOW SUBMARINE" ++ repeat 16 16)) mod 16 = 0 /\
  pad (lit "YELLOW SUBMARINE") = Ok (lit "YELLOW SUBMARINE" ++ repeat 16 16).
Proof.
  split; [vm_compute; reflexivity|]. split; [reflexivity|].
  apply (pad_unpad (lit "YELLOW SUBMARINE" ++ repeat 16 16)
                   (lit "YELLOW SUBMARINE")).
  - vm_compute. reflexivity.
  - reflexivity.
Defined.

End PaddingMore.

(** ** Text files, the command line and the window *)
Section Boundary.

Import IoHelpers Cli Gui.

Lemma universal_newlines_other (c : Z) (s : str) :
  c <> 13 -> universal_newlines (c :: s) = c :: universal_newlines s.
Proof.
  intros Hc. cbn [universal_newlines].
  destruct c as [|p|p]; try reflexivity.
  do 4 (destruct p as [p|p|]; try reflexivity). congruence.
Qed.

Lemma universal_newlines_cr (d : Z) (s : str) :
  d <> 10 ->
  universal_newlines (13 :: d :: s) = 10 :: universal_newlines (d :: s).
Proof.
  intros Hd.
  change (universal_newlines (13 :: d :: s))
    with (10 :: match d :: s with
                | 10 :: rest' => universal_newlines rest'
                | _ => universal_newlines (d :: s)
                end).
  f_equal.
  destruct d as [|p|p]; try reflexivity.
  do 4 (destruct p as [p|p|]; try reflexivity). congruence.
Qed.

Lemma universal_newlines_without_cr (s : str) :
  existsb (Z.eqb 13) s = false -> universal_newlines s = s.
Proof.
  induction s as [|c s IH]; [reflexivity|].
  cbn [existsb]. intros H. apply orb_false_elim in H as [Hc Hs].
  apply Z.eqb_neq in Hc.
  rewrite universal_newlines_other by congruence.
  rewrite (IH Hs). reflexivity.
Qed.

Lemma universal_newlines_no_cr (s : str) :
  existsb (Z.eqb 13) (universal_newlines s) = false.
Proof.
  remember (List.length s) as n eqn:Hn.
  assert (Hle : (List.length s <= n)%nat) by lia. clear Hn.
  revert s Hle. induction n as [|n IH]; intros s Hle.
  - destruct s; [reflexivity | simpl in Hle; lia].
  - destruct s as [|c s]; [reflexivity|].
    cbn [List.length] in Hle.
    destruct (Z.eq_dec c 13) as [->|Hne].
    + destruct s as [|d s]; [reflexivity|].
      cbn [List.length] in Hle.
      destruct (Z.eq_dec d 10) as [->|Hd].
      * change (universal_newlines (13 :: 10 :: s))
          with (10 :: universal_newlines s).
        cbn [existsb]. change (13 =? 10) with false. cbn [orb].
        apply IH. lia.
      * rewrite universal_newlines_cr by exact Hd.
        cbn [existsb]. change (13 =? 10) with false. cbn [orb].
        apply IH. cbn [List.length]. lia.
    + rewrite universal_newlines_other by exact Hne.
      cbn [existsb].
      replace (13 =? c) with false
        by (symmetry; apply Z.eqb_neq; congruence).
      cbn [orb]. apply IH. lia.
Qed.

(** X16.  A text file written by [write_text_file] and read back by
    [read_text_file].  When the directory can be made and the file
    opened, writing a text of scalar values stores its UTF-8 bytes, and
    reading a file that holds those bytes returns the text with every
    CR LF and every lone CR turned into LF: the text itself exactly when
    it holds no carriage return. *)
Theorem write_then_read_text_file (sys : os) (path text : str) :
  forallb is_scalar text = true ->
  makedirs sys (parent_dir path) = Ok tt ->
  open_write sys path = Ok tt ->
  exists content,
    write_text_file sys path text
    = ([MadeDirs (parent_dir path); Opened path; Stored path content],
       Done tt) /\
    (forall sys', read_bytes sys' path = Ok content ->
       read_text_file sys' path = Ok (universal_newlines text)) /\
    (universal_newlines text = text <-> existsb (Z.eqb 13) text = false).
Proof.
  intros Hs Hm Ho.
  destruct (utf8_round_trip text Hs) as (b & Henc & _ & Hdec).
  exists b. split; [|split].
  - unfold write_text_file. rewrite Hm, Ho, Henc. reflexivity.
  - intros sys' Hr. unfold read_text_file. rewrite Hr. cbn [bind].
    rewrite Hdec. reflexivity.
  - split.
    + intros E. rewrite <- E. apply universal_newlines_no_cr.
    + apply universal_newlines_without_cr.
Qed.

Lemma write_then_read_text_file_witness :
  forallb is_scalar (lit "Hello") = true /\
  makedirs bare_os (parent_dir (lit "out/result.txt")) = Ok tt /\
  open_write bare_os (lit "out/result.txt") = Ok tt /\
  exists content,
    write_text_file bare_os (lit "out/result.txt") (lit "Hello")
    = ([MadeDirs (parent_dir (lit "out/result.txt"));
        Opened (lit "out/result.txt");
        Stored (lit "out/result.txt") content], Done tt) /\
    (forall sys', read_bytes sys' (lit "out/result.txt") = Ok content ->
       read_text_file sys' (lit "out/result.txt")
       = Ok (universal_newlines (lit "Hello"))) /\
    (universal_newlines (lit "Hello") = lit "Hello"
     <-> existsb (Z.eqb 13) (lit "Hello") = false).
Proof.
  split; [reflexivity|]. split; [reflexivity|]. split; [reflexivity|].
  apply (write_then_read_text_file bare_os (lit "out/result.txt") (lit "Hello"));
    reflexivity.
Defined.

(** Every failure of [decode_base64] is the [ValueError] it builds. *)
Lemma decode_base64_failure (s : str) (e : exn) :
  decode_base64 s = Raise e ->
  exists exc, e = ExnFrom ValueError "Invalid Base64 input" exc.
Proof.
  pose proof (decoding_raises_exceptions s) as H.
  unfold decode_base64, try_except, raise_from.
  destruct (b <- Pybase64.b64decode s ;; utf8_decode b) as [t|exc];
    [discriminate|].
  simpl in H. rewrite H. intros [= <-]. exists exc. reflexivity.
Qed.

(** X17.  [decrypt --algo base64] reports a decoding failure and stops:
    whatever text it was given or read, when [decode_base64] fails the
    command prints [Error: Invalid Base64 input], exits with status 1,
    writes no file and prints no success message. *)
Theorem cli_decrypt_base64_reports_failure (sys : os) (input_value text : str)
    (shift : Z) (output_path : option str) :
  _read_input sys input_value = Ok text ->
  is_ok (decode_base64 text) = false ->
  Cli.decrypt sys (lit "base64") input_value shift output_path
  = ([Echo (lit "Error: Invalid Base64 input")], Stop (Exits 1)).
Proof.
  intros Hr Hd. unfold Cli.decrypt. rewrite Hr. cbn [lift io_bind].
  change (bytes_eqb (lit "base64") (lit "caesar")) with false.
  change (bytes_eqb (lit "base64") (lit "base64")) with true. cbv iota.
  destruct (decode_base64 text) as [t|e] eqn:E; [discriminate|].
  destruct (decode_base64_failure _ _ E) as (exc & ->).
  reflexivity.
Qed.

Lemma cli_decrypt_base64_reports_failure_witness :
  _read_input bare_os (lit "not-valid@@@") = Ok (lit "not-valid@@@") /\
  is_ok (decode_base64 (lit "not-valid@@@")) = false /\
  Cli.decrypt bare_os (lit "base64") (lit "not-valid@@@") 3
    (Some (lit "out.txt"))
  = ([Echo (lit "Error: Invalid Base64 input")], Stop (Exits 1)).
Proof.
  split; [reflexivity|]. split; [vm_compute; reflexivity|].
  apply (cli_decrypt_base64_reports_failure bare_os (lit "not-valid@@@")
           (lit "not-valid@@@") 3 (Some (lit "out.txt")));
    vm_compute; reflexivity.
Defined.

(** X18.  The Caesar commands have no handler: on a text with a Kelvin
    sign, given or read, [encrypt --algo caesar] and
    [decrypt --algo caesar] end with the uncaught
    [ValueError("substring not found")], having printed and written
    nothing. *)
Theorem cli_caesar_kelvin_uncaught (sys : os) (input_value text : str)
    (shift : Z) (output_path : option str) :
  _read_input sys input_value = Ok text ->
  has_kelvin text = true ->
  Cli.encrypt sys (lit "caesar") input_value shift output_path
  = ([], Stop (Propagates (Exn ValueError "substring not found"))) /\
  Cli.decrypt sys (lit "caesar") input_value shift output_path
  = ([], Stop (Propagates (Exn ValueError "substring not found"))).
Proof.
  intros Hr Hk. unfold Cli.encrypt, Cli.decrypt. rewrite Hr.
  cbn [lift io_bind].
  change (bytes_eqb (lit "caesar") (lit "caesar")) with true. cbv iota.
  rewrite encrypt_caesar_cases, decrypt_caesar_cases, Hk.
  split; reflexivity.
Qed.

Lemma cli_caesar_kelvin_uncaught_witness :
  _read_input bare_os (lit "300 " ++ [KELVIN]) = Ok (lit "300 " ++ [KELVIN]) /\
  has_kelvin (lit "300 " ++ [KELVIN]) = true /\
  Cli.encrypt bare_os (lit "caesar") (lit "300 " ++ [KELVIN]) 3 None
  = ([], Stop (Propagates (Exn ValueError "substring not found"))) /\
  Cli.decrypt bare_os (lit "caesar") (lit "300 " ++ [KELVIN]) 3 None
  = ([], Stop (Propagates (Exn ValueError "substring not found"))).
Proof.
  split; [reflexivity|]. split; [reflexivity|].
  apply (cli_caesar_kelvin_uncaught bare_os (lit "300 " ++ [KELVIN])
           (lit "300 " ++ [KELVIN]) 3 None); reflexivity.
Defined.

(** X19.  The Caesar commands undo each other through standard output.
    For a text that names no existing file and holds no Kelvin sign,
    [encrypt --algo caesar] prints a ciphertext and its success message;
    when that ciphertext names no existing file either, [decrypt] with
    the same shift prints the text. *)
Theorem cli_caesar_round_trip (sys : os) (x : str) (s : Z) :
  path_exists sys x = false ->
  has_kelvin x = false ->
  exists y,
    Cli.encrypt sys (lit "caesar") x s None
    = ([Echo y;
        Echo (lit "Encrypted successfully (caesar). Printed to stdout")],
       Done tt) /\
    (path_exists sys y = false ->
     Cli.decrypt sys (lit "caesar") y s None
     = ([Echo x;
         Echo (lit "Decrypted successfully (caesar). Printed to stdout")],
        Done tt)).
Proof.
  intros Hx Hk.
  destruct (encrypt_caesar x s) as [y|e] eqn:E;
    [|rewrite encrypt_caesar_cases, Hk in E; discriminate].
  exists y. split.
  - unfold Cli.encrypt, _read_input. rewrite Hx. cbn [lift io_bind].
    change (bytes_eqb (lit "caesar") (lit "caesar")) with true. cbv iota.
    rewrite E. reflexivity.
  - intros Hy. unfold Cli.decrypt, _read_input. rewrite Hy.
    cbn [lift io_bind].
    change (bytes_eqb (lit "caesar") (lit "caesar")) with true. cbv iota.
    rewrite (decrypt_encrypt_caesar _ _ _ E). reflexivity.
Qed.

Lemma cli_caesar_round_trip_witness :
  path_exists bare_os (lit "Hello, World!") = false /\
  has_kelvin (lit "Hello, World!") = false /\
  exists y,
    Cli.encrypt bare_os (lit "caesar") (lit "Hello, World!") 3 None
    = ([Echo y;
        Echo (lit "Encrypted successfully (caesar). Printed to stdout")],
       Done tt) /\
    (path_exists bare_os y = false ->
     Cli.decrypt bare_os (lit "caesar") y 3 None
     = ([Echo (lit "Hello, World!");
         Echo (lit "Decrypted successfully (caesar). Printed to stdout")],
        Done tt)).
Proof.
  split; [reflexivity|]. split; [reflexivity|].
  apply (cli_caesar_round_trip bare_os (lit "Hello, World!") 3); reflexivity.
Defined.

(** X20.  The Base64 commands undo each other through standard output.
    For a text of scalar values that names no existing file,
    [encrypt --algo base64] prints an encoding and its success message;
    when that encoding names no existing file either, [decrypt] prints
    the text. *)
Theorem cli_base64_round_trip (sys : os) (x : str) (s : Z) :
  path_exists sys x = false ->
  forallb is_scalar x = true ->
  exists y,
    Cli.encrypt sys (lit "base64") x s None
    = ([Echo y;
        Echo (lit "Encrypted successfully (base64). Printed to stdout")],
       Done tt) /\
    (path_exists sys y = false ->
     Cli.decrypt sys (lit "base64") y s None
     = ([Echo x;
         Echo (lit "Decrypted successfully (base64). Printed to stdout")],
        Done tt)).
Proof.
  intros Hx Hs.
  destruct (utf8_round_trip x Hs) as (b & Henc & Hb & _).
  assert (E : encode_base64 x = Ok (Pybase64.b64encode b)).
  { unfold encode_base64. rewrite Henc. cbn [bind].
    apply utf8_decode_ascii, b64encode_ascii, Hb. }
  destruct (decode_encode_base64 x _ Hs E) as [D _].
  exists (Pybase64.b64encode b). split.
  - unfold Cli.encrypt, _read_input. rewrite Hx. cbn [lift io_bind].
    change (bytes_eqb (lit "base64") (lit "caesar")) with false.
    change (bytes_eqb (lit "base64") (lit "base64")) with true. cbv iota.
    rewrite E. reflexivity.
  - intros Hy. unfold Cli.decrypt, _read_input. rewrite Hy.
    cbn [lift io_bind].
    change (bytes_eqb (lit "base64") (lit "caesar")) with false.
    change (bytes_eqb (lit "base64") (lit "base64")) with true. cbv iota.
    rewrite D. reflexivity.
Qed.

Lemma cli_base64_round_trip_witness :
  path_exists bare_os (lit "Hello") = false /\
  forallb is_scalar (lit "Hello") = true /\
  exists y,
    Cli.encrypt bare_os (lit "base64") (lit "Hello") 3 None
    = ([Echo y;
        Echo (lit "Encrypted successfully (base64). Printed to stdout")],
       Done tt) /\
    (path_exists bare_os y = false ->
     Cli.decrypt bare_os (lit "base64") y 3 None
     = ([Echo (lit "Hello");
         Echo (lit "Decrypted successfully (base64). Printed to stdout")],
        Done tt)).
Proof.
  split; [reflexivity|]. split; [reflexivity|].
  apply (cli_base64_round_trip bare_os (lit "Hello") 3); reflexivity.
Defined.

Lemma encode_base64_raises (x : str) :
  raises_only (fun e => issubclass (exn_class e) Exception = true)
    (encode_base64 x).
Proof.
  unfold encode_base64. apply raises_only_bind.
  - induction x as [|c x IH]; [exact I|].
    cbn [utf8_encode]. apply raises_only_bind.
    + unfold utf8_encode_char.
      repeat match goal with
      | |- raises_only _ (if ?b then _ else _) => destruct b
      end; try exact I; reflexivity.
    + intros bs. apply raises_only_bind; [exact IH | intros; exact I].
  - intros b. pose proof (utf8_decode_raises (Pybase64.b64encode b)) as H.
    destruct (utf8_decode _) as [t|e]; [exact I|].
    simpl in *. rewrite H. reflexivity.
Qed.

(** X21.  The window's handlers never let a cipher's exception out: for
    every text, algorithm name and integer shift both return, and set
    the result to the cipher's output, to the error of the cipher, or,
    for a name other than [caesar] and [base64], to
    [Unsupported algorithm].  A Kelvin sign, which ends the Caesar
    commands of the command line, is shown here as an error. *)
Theorem gui_handlers_display (text algo : str) (n : Z) :
  do_encrypt text algo (Ok n)
  = Ok (if bytes_eqb algo (lit "caesar") then
          if has_kelvin text
          then ShownError (Exn ValueError "substring not found")
          else Shown (map (rot_char (n mod 26)) text)
        else if bytes_eqb algo (lit "base64") then
          match encode_base64 text with
          | Ok e => Shown e
          | Raise exc => ShownError exc
          end
        else Shown (lit "Unsupported algorithm")) /\
  do_decrypt text algo (Ok n)
  = Ok (if bytes_eqb algo (lit "caesar") then
          if has_kelvin text
          then ShownError (Exn ValueError "substring not found")
          else Shown (map (rot_char (- (n mod 26))) text)
        else if bytes_eqb algo (lit "base64") then
          match decode_base64 text with
          | Ok t => Shown t
          | Raise exc => ShownError exc
          end
        else Shown (lit "Unsupported algorithm")).
Proof.
  unfold do_encrypt, do_decrypt.
  destruct (bytes_eqb algo (lit "caesar")).
  - cbn [bind]. rewrite encrypt_caesar_cases, decrypt_caesar_cases.
    destruct (has_kelvin text); split; reflexivity.
  - destruct (bytes_eqb algo (lit "base64")); [|split; reflexivity].
    split.
    + pose proof (encode_base64_raises text) as H.
      destruct (encode_base64 text) as [e|exc]; [reflexivity|].
      simpl in H. unfold try_except. cbn [bind exn_class].
      simpl. rewrite H. reflexivity.
    + destruct (decode_base64 text) as [t|exc] eqn:E; [reflexivity|].
      destruct (decode_base64_failure _ _ E) as (c & ->). reflexivity.
Qed.

Lemma rot_char_fixes (k c : Z) : is_letter c = false -> rot_char k c = c.
Proof.
  unfold is_letter, rot_char. intros H.
  apply orb_false_elim in H as [H1 H2]. rewrite H1, H2. reflexivity.
Qed.

Lemma rot_char_not_newline (k c : Z) :
  (c <> 13 -> rot_char k c <> 13) /\ (c <> 10 -> rot_char k c <> 10).
Proof.
  unfold rot_char, is_upper_letter, is_lower_letter, in_range.
  pose proof (Z.mod_pos_bound (c - 65 + k) 26).
  pose proof (Z.mod_pos_bound (c - 97 + k) 26).
  destruct ((65 <=? c) && (c <=? 90)); [lia|].
  destruct ((97 <=? c) && (c <=? 122)); [lia|tauto].
Qed.

Lemma universal_newlines_map_rot (k : Z) (s : str) :
  universal_newlines (map (rot_char k) s)
  = map (rot_char k) (universal_newlines s).
Proof.
  remember (List.length s) as n eqn:Hn.
  assert (Hle : (List.length s <= n)%nat) by lia. clear Hn.
  revert s Hle. induction n as [|n IH]; intros s Hle.
  - destruct s; [reflexivity | simpl in Hle; lia].
  - destruct s as [|c s]; [reflexivity|].
    cbn [List.length] in Hle.
    destruct (Z.eq_dec c 13) as [->|Hne].
    + destruct s as [|d s]; [reflexivity|].
      cbn [List.length] in Hle.
      destruct (Z.eq_dec d 10) as [->|Hd].
      * change (universal_newlines (13 :: 10 :: s))
          with (10 :: universal_newlines s).
        change (map (rot_char k) (13 :: 10 :: s))
          with (13 :: 10 :: map (rot_char k) s).
        change (universal_newlines (13 :: 10 :: map (rot_char k) s))
          with (10 :: universal_newlines (map (rot_char k) s)).
        rewrite IH by lia. reflexivity.
      * rewrite universal_newlines_cr by exact Hd.
        change (map (rot_char k) (13 :: d :: s))
          with (13 :: rot_char k d :: map (rot_char k) s).
        rewrite universal_newlines_cr
          by (apply (proj2 (rot_char_not_newline k d)); exact Hd).
        change (rot_char k d :: map (rot_char k) s)
          with (map (rot_char k) (d :: s)).
        rewrite IH by (cbn [List.length]; lia). reflexivity.
    + rewrite universal_newlines_other by exact Hne.
      cbn [map].
      rewrite universal_newlines_other
        by (apply (proj1 (rot_char_not_newline k c)); exact Hne).
      rewrite IH by lia. reflexivity.
Qed.

Lemma universal_newlines_forallb (P : Z -> bool) (s : str) :
  P 10 = true -> forallb P s = true ->
  forallb P (universal_newlines s) = true.
Proof.
  intros H10.
  remember (List.length s) as n eqn:Hn.
  assert (Hle : (List.length s <= n)%nat) by lia. clear Hn.
  revert s Hle. induction n as [|n IH]; intros s Hle Hs.
  - destruct s; [reflexivity | simpl in Hle; lia].
  - destruct s as [|c s]; [reflexivity|].
    cbn [List.length] in Hle. cbn [forallb] in Hs.
    apply andb_prop in Hs as [Hc Hs].
    destruct (Z.eq_dec c 13) as [->|Hne].
    + destruct s as [|d s]; [cbn; rewrite H10; reflexivity|].
      cbn [List.length] in Hle.
      destruct (Z.eq_dec d 10) as [->|Hd].
      * change (universal_newlines (13 :: 10 :: s))
          with (10 :: universal_newlines s).
        cbn [forallb] in *. apply andb_prop in Hs as [_ Hs].
        rewrite H10, IH by (lia || assumption). reflexivity.
      * rewrite universal_newlines_cr by exact Hd.
        cbn [forallb]. rewrite H10, IH by (cbn [List.length]; lia || assumption).
        reflexivity.
    + rewrite universal_newlines_other by exact Hne.
      cbn [forallb]. rewrite Hc, IH by (lia || assumption). reflexivity.
Qed.

Lemma has_kelvin_forallb (s : str) :
  has_kelvin s = negb (forallb (fun c => negb (KELVIN =? c)) s).
Proof.
  unfold has_kelvin. induction s as [|c s IH]; [reflexivity|].
  cbn [existsb forallb]. rewrite IH.
  destruct (KELVIN =? c); reflexivity.
Qed.

Lemma rot_char_scalar (k c : Z) :
  is_scalar c = true -> is_scalar (rot_char k c) = true.
Proof.
  intros H. destruct (is_letter c) eqn:El.
  - destruct (rot_char_letter k c) as [HU HL].
    unfold is_letter in El. rewrite <- HU, <- HL in El.
    unfold is_upper_letter, is_lower_letter, in_range in El.
    unfold is_scalar, is_surrogate, in_range.
    apply orb_prop in El as [E|E]; apply andb_prop in E as [E1 E2];
      apply Z.leb_le in E1, E2;
      apply andb_true_intro; split;
      try (apply andb_true_intro; split; apply Z.leb_le; lia);
      apply negb_true_iff, andb_false_intro1, Z.leb_gt; lia.
  - rewrite rot_char_fixes by exact El. exact H.
Qed.

(** X22.  A Caesar round trip through a file.  [encrypt --algo caesar
    --out f], on a text of scalar values without a Kelvin sign that names
    no existing file, stores the UTF-8 bytes of the ciphertext in [f] and
    prints only the success message.  [decrypt --algo caesar --in f], run
    where [f] exists and holds those bytes, prints the text with every
    CR LF and every lone CR turned into LF. *)
Theorem cli_caesar_round_trip_through_file (sys sys' : os) (x : str) (s : Z)
    (c : Z) (p : str) :
  let f := c :: p in
  path_exists sys x = false ->
  forallb is_scalar x = true ->
  has_kelvin x = false ->
  makedirs sys (parent_dir f) = Ok tt ->
  open_write sys f = Ok tt ->
  exists content,
    Cli.encrypt sys (lit "caesar") x s (Some f)
    = ([MadeDirs (parent_dir f); Opened f; Stored f content;
        Echo (lit "Encrypted successfully (caesar). Saved to " ++ f)],
       Done tt) /\
    (path_exists sys' f = true -> read_bytes sys' f = Ok content ->
     Cli.decrypt sys' (lit "caesar") f s None
     = ([Echo (universal_newlines x);
         Echo (lit "Decrypted successfully (caesar). Printed to stdout")],
        Done tt)).
Proof.
  intros f Hx Hs Hk Hm Ho. subst f.
  set (y := map (rot_char (s mod 26)) x).
  assert (E : encrypt_caesar x s = Ok y)
    by (rewrite encrypt_caesar_cases, Hk; reflexivity).
  assert (Hy : forallb is_scalar y = true).
  { subst y. rewrite forallb_forall in Hs |- *.
    intros d Hd. apply in_map_iff in Hd as (d0 & <- & Hd0).
    apply rot_char_scalar, Hs, Hd0. }
  destruct (utf8_round_trip y Hy) as (b & Henc & _ & Hdec).
  exists b. split.
  - unfold Cli.encrypt, _read_input. rewrite Hx. cbn [lift io_bind].
    change (bytes_eqb (lit "caesar") (lit "caesar")) with true. cbv iota.
    rewrite E. cbn [lift io_bind]. unfold _write_output, write_text_file.
    cbv zeta. rewrite Hm, Ho, Henc. reflexivity.
  - intros He Hr. unfold Cli.decrypt, _read_input. rewrite He.
    unfold read_text_file. rewrite Hr. cbn [bind]. rewrite Hdec.
    cbn [bind lift io_bind].
    change (bytes_eqb (lit "caesar") (lit "caesar")) with true. cbv iota.
    assert (D : decrypt_caesar (universal_newlines y) s
                = Ok (universal_newlines x)).
    { subst y. rewrite universal_newlines_map_rot.
      apply decrypt_encrypt_caesar.
      rewrite encrypt_caesar_cases.
      replace (has_kelvin (universal_newlines x)) with false; [reflexivity|].
      symmetry. rewrite has_kelvin_forallb. apply negb_false_iff.
      apply universal_newlines_forallb; [reflexivity|].
      rewrite has_kelvin_forallb in Hk. apply negb_false_iff in Hk.
      exact Hk. }
    rewrite D. reflexivity.
Qed.

Lemma cli_caesar_round_trip_through_file_witness :
  path_exists bare_os (lit "Hello, World!") = false /\
  forallb is_scalar (lit "Hello, World!") = true /\
  has_kelvin (lit "Hello, World!") = false /\
  makedirs bare_os (parent_dir (lit "out.txt")) = Ok tt /\
  open_write bare_os (lit "out.txt") = Ok tt /\
  exists content,
    Cli.encrypt bare_os (lit "caesar") (lit "Hello, World!") 3
      (Some (lit "out.txt"))
    = ([MadeDirs (parent_dir (lit "out.txt")); Opened (lit "out.txt");
        Stored (lit "out.txt") content;
        Echo (lit "Encrypted successfully (caesar). Saved to "
              ++ lit "out.txt")],
       Done tt) /\
    (path_exists (os_with_file (lit "out.txt") (lit "Khoor, Zruog!"))
       (lit "out.txt") = true ->
     read_bytes (os_with_file (lit "out.txt") (lit "Khoor, Zruog!"))
       (lit "out.txt") = Ok content ->
     Cli.decrypt (os_with_file (lit "out.txt") (lit "Khoor, Zruog!"))
       (lit "caesar") (lit "out.txt") 3 None
     = ([Echo (universal_newlines (lit "Hello, World!"));
         Echo (lit "Decrypted successfully (caesar). Printed to stdout")],
        Done tt)).
Proof.
  repeat (split; [reflexivity|]).
  apply (cli_caesar_round_trip_through_file bare_os
           (os_with_file (lit "out.txt") (lit "Khoor, Zruog!"))
           (lit "Hello, World!") 3 111 (lit "ut.txt")); reflexivity.
Defined.

End Boundary.
